(** * WebAssemblyGenerator: a shallow embedding of lib/wasm/WebAssemblyGenerator.js

    The generator decodes a wasm binary into a tree, analyses the tree, and
    patches the binary in three stages (removeStartFunc,
    rewriteImportedGlobals, addInitFunction) glued together by [compose].

    The tree is a JavaScript object shared by every stage, and one stage writes
    to it, so the embedding threads the tree as the state of a small state
    monad and refers to its nodes by reference.  The decoder and the patch
    applier (@webassemblyjs/wasm-parser and wasm-edit) are not part of the
    file; they are the interface [PatchApplier]. *)

From stdpp Require Import base list strings.

Open Scope string_scope.
Open Scope list_scope.

(** ** The tree (@webassemblyjs/ast), as far as the generator reads or builds it *)

Inductive Valtype := i32 | i64 | f32 | f64.

(** The [mutability] field holds the string "const" or "var". *)
Inductive Mutability := mut_const | mut_var.

Record GlobalType := mkGlobalType { valtype : Valtype; mutability : Mutability }.

(** [descr] of an import; [descr.type] is "FuncImportDescr", "GlobalType",
    "Table" or "Memory". *)
Inductive ImportDescr :=
| FuncImportDescr (typeIndex : nat)
| GlobalTypeDescr (globalType : GlobalType)
| TableDescr
| MemoryDescr.

(** Instructions, named after their builders [t.instruction],
    [t.objectInstruction] and [t.callInstruction]; arguments are index or
    number literals. *)
Inductive Instr :=
| instruction (id : string) (args : list nat)
| objectInstruction (id : string) (object : Valtype) (args : list nat)
| callInstruction (index : nat).

(** [t.funcParam(valtype, id)].  The value type is read off a node with
    [descr.valtype], which JavaScript evaluates to [undefined] on a
    descriptor without that field: [None] stands for [undefined]. *)
Record FuncParam := funcParam { fp_valtype : option Valtype; fp_id : string }.

Record Signature := mkSignature { params : list FuncParam; result : list Valtype }.

Inductive Node :=
| ModuleImport (module name : string) (descr : ImportDescr)
| Start (index : nat)
| SectionMetadata (section : string) (vectorOfSize : nat)
| Global (globalType : GlobalType) (init : list Instr)
| Func (name : string) (signature : Signature) (body : list Instr)
| TypeInstruction (functype : Signature)
| IndexInFuncSection (index : nat)
| ModuleExport (name : string) (exportType : string) (index : nat)
| OtherField (kind : string).

(** A node object of the tree.  [path.remove()] detaches the node and flags
    it [_deleted]; the slot is kept so that references taken earlier (the
    [importedGlobals] array) still reach the object, as they do in
    JavaScript. *)
Record Slot := mkSlot { node : Node; _deleted : bool }.

(** The tree in document order, and references into it. *)
Abbreviation Program := (list Slot).
Abbreviation NodeRef := nat (only parsing).

(** The tree as the decoder hands it over: nothing removed yet. *)
Definition fresh (nodes : list Node) : Program :=
  map (fun n => mkSlot n false) nodes.

(** ** Computations over the shared tree *)

Definition M (A : Type) : Type := Program -> A * Program.

Definition ret {A} (a : A) : M A := fun ast => (a, ast).

Definition bind {A B} (m : M A) (f : A -> M B) : M B :=
  fun ast => let (a, ast') := m ast in f a ast'.

Notation "x <- m ;; k" := (bind m (fun x => k))
  (at level 100, m at next level, right associativity).
Notation "m ;; k" := (bind m (fun _ => k))
  (at level 100, right associativity).

Definition getAst : M Program := fun ast => (ast, ast).

(** Assignment to the node behind a reference. *)
Definition writeNode (r : NodeRef) (n : Node) : M unit :=
  fun ast => (tt, alter (fun s => mkSlot n (_deleted s)) r ast).

(** [path.remove()]. *)
Definition path_remove (path : NodeRef) : M unit :=
  fun ast => (tt, alter (fun s => mkSlot (node s) true) path ast).

Definition isDeleted (r : NodeRef) : M bool :=
  fun ast => (from_option _deleted false (ast !! r), ast).

(** A visitor is called with the path of a node and the node; [A] is the
    state of the variables its closure captures. *)
Definition Visitor (A : Type) : Type := NodeRef -> Node -> A -> M A.

(** [t.traverse]: every attached node, in document order. *)
Fixpoint traverseFrom {A} (visit : Visitor A) (refs : list NodeRef) (acc : A) : M A :=
  match refs with
  | [] => ret acc
  | r :: rest => fun ast =>
      match ast !! r with
      | Some s =>
          if _deleted s then traverseFrom visit rest acc ast
          else let (acc', ast') := visit r (node s) acc ast in
               traverseFrom visit rest acc' ast'
      | None => traverseFrom visit rest acc ast
      end
  end.

Definition traverse {A} (visit : Visitor A) (acc : A) : M A :=
  fun ast => traverseFrom visit (seq 0 (length ast)) acc ast.

(** ** Utility functions (lines 20-34) *)

(** [n.descr.type === "GlobalType"]; [n] is an import wherever the source
    calls it. *)
Definition isGlobalImport (n : Node) : bool :=
  match n with
  | ModuleImport _ _ (GlobalTypeDescr _) => true
  | _ => false
  end.

(** [n.descr.type === "FuncImportDescr"]. *)
Definition isFuncImport (n : Node) : bool :=
  match n with
  | ModuleImport _ _ (FuncImportDescr _) => true
  | _ => false
  end.

(** [t.identifier("__webpack_init__")]; the model keeps the identifier's
    [value]. *)
Definition initFuncId : string := "__webpack_init__".

(** ** Analysis of the tree (lines 55-144) *)

Definition getStartFuncIndex : M (option nat) :=
  traverse (fun _ n startAtFuncIndex =>
              match n with
              | Start index => ret (Some index)
              | _ => ret startAtFuncIndex
              end) None.

Definition getImportedGlobals : M (list NodeRef) :=
  traverse (fun path n importedGlobals =>
              match n with
              | ModuleImport _ _ _ =>
                  if isGlobalImport n then ret (importedGlobals ++ [path])
                  else ret importedGlobals
              | _ => ret importedGlobals
              end) [].

Definition getCountImportedFunc : M nat :=
  traverse (fun _ n count =>
              match n with
              | ModuleImport _ _ _ =>
                  if isFuncImport n then ret (S count) else ret count
              | _ => ret count
              end) 0.

(** [t.getSectionMetadata(ast, name)]: the metadata node of the section,
    [undefined] when the binary has no such section.  The result is the
    node's [vectorOfSize.value]. *)
Definition getSectionMetadata (sectionName : string) : M (option nat) :=
  traverse (fun _ n found =>
              match n with
              | SectionMetadata section vectorOfSize =>
                  if String.eqb section sectionName then ret (Some vectorOfSize)
                  else ret found
              | _ => ret found
              end) None.

Definition getNextTypeIndex : M nat :=
  typeSectionMetadata <- getSectionMetadata "type" ;;
  match typeSectionMetadata with
  | None => ret 0
  | Some vectorOfSize => ret vectorOfSize
  end.

Definition getNextFuncIndex (countImportedFunc : nat) : M nat :=
  funcSectionMetadata <- getSectionMetadata "func" ;;
  match funcSectionMetadata with
  | None => ret (0 + countImportedFunc)
  | Some vectorOfSize => ret (vectorOfSize + countImportedFunc)
  end.

(** ** The decoder and the patch applier

    [decode] is @webassemblyjs/wasm-parser, [addWithAST] is wasm-edit's, and
    [applyDelete] is what wasm-edit's [editWithAST] does to the buffer with
    the nodes its traversal found removed.  The two patching operations
    take the tree and a buffer and return a buffer, as in the collaborator
    contract [remove(tree, bytes, nodeSelector) -> bytes] and
    [add(tree, bytes, newNodes) -> bytes].  With nothing to remove or to add
    the buffer comes back as it is.

    The interface gives an operation the tree to read.  What wasm-edit
    itself writes to the tree it is handed (the nodes it inserts, the
    section metadata it adjusts) is not modelled: the statements below
    about the tree are about what the generator's own code writes, up to
    the point where a stage hands the tree over. *)
Class PatchApplier (Bin : Type) := {
  decode : Bin -> list Node;
  applyDelete : Program -> Bin -> list NodeRef -> Bin;
  addWithAST : Program -> Bin -> list Node -> Bin;
  applyDelete_nil : forall ast bin, applyDelete ast bin [] = bin;
  addWithAST_nil : forall ast bin, addWithAST ast bin [] = bin
}.

(** [Array.prototype.reduce] with the index argument. *)
Fixpoint reduceFrom {A B} (f : B -> A -> nat -> B) (index : nat) (l : list A) (acc : B) : B :=
  match l with
  | [] => acc
  | x :: l' => reduceFrom f (S index) l' (f acc x index)
  end.

Definition reduce {A B} (f : B -> A -> nat -> B) (l : list A) (init : B) : B :=
  reduceFrom f 0 l init.

(** [importedGlobal.descr.valtype] *)
Definition descr_valtype (descr : ImportDescr) : option Valtype :=
  match descr with
  | GlobalTypeDescr globalType => Some (valtype globalType)
  | _ => None
  end.

(** The state object [addInitFunction] is given, without its [ast]: the tree
    is the state of [M]. *)
Record InitState := mkInitState {
  importedGlobals : list NodeRef;
  startAtFuncIndex : option nat;
  nextFuncIndex : nat;
  nextTypeIndex : nat
}.

(** Lines 204-209.  The import is read through its reference.  Every
    reference of [importedGlobals] reaches an import ([funcParams_refs]
    below), so the last case is never taken by [generate]. *)
Definition funcParams (ast : Program) (importedGlobals : list NodeRef) : list FuncParam :=
  map (fun importedGlobal =>
         match node <$> ast !! importedGlobal with
         | Some (ModuleImport module name descr) =>
             let id := module +:+ "." +:+ name in
             funcParam (descr_valtype descr) id
         | _ => funcParam None "undefined.undefined"
         end) importedGlobals.

(** Lines 211-223. *)
Definition funcBody (importedGlobals : list NodeRef) (startAtFuncIndex : option nat) : list Instr :=
  let funcBody :=
    reduce (fun acc (importedGlobal : NodeRef) index =>
              let args := [index] in
              let body := [instruction "get_local" args; instruction "set_global" args] in
              acc ++ body) importedGlobals [] in
  match startAtFuncIndex with
  | Some index => funcBody ++ [callInstruction index]
  | None => funcBody
  end.

(** Lines 225-240: the four nodes handed to [addWithAST]. *)
Definition initNodes (ast : Program) (state : InitState) : list Node :=
  let funcResults := [] in
  let signature := mkSignature (funcParams ast (importedGlobals state)) funcResults in
  let func :=
    Func initFuncId signature
         (funcBody (importedGlobals state) (startAtFuncIndex state)) in
  let functype := TypeInstruction (mkSignature (params signature) (result signature)) in
  let funcindex := IndexInFuncSection (nextTypeIndex state) in
  let moduleExport := ModuleExport initFuncId "Func" (nextFuncIndex state) in
  [func; moduleExport; funcindex; functype].

(** Lines 254-258 and 265-271: the five constants of [generate], gathered
    into the state object of [addInitFunction]. *)
Definition analyse : M InitState :=
  importedGlobals <- getImportedGlobals ;;
  countImportedFunc <- getCountImportedFunc ;;
  startAtFuncIndex <- getStartFuncIndex ;;
  nextFuncIndex <- getNextFuncIndex countImportedFunc ;;
  nextTypeIndex <- getNextTypeIndex ;;
  ret (mkInitState importedGlobals startAtFuncIndex nextFuncIndex nextTypeIndex).

Section Generator.
Context {Bin : Type} `{PatchApplier Bin}.

(** wasm-edit's [editWithAST]: traverse with the visitor, note the nodes
    found [_deleted] after their visit, and have them cut out of the
    buffer.  [acc] is handed back for the closure variables the visitor
    has written. *)
Definition editWithAST {A} (visitors : Visitor A) (acc : A) (bin : Bin) : M (A * Bin) :=
  r <- traverse (fun path n '(acc, deleted) =>
                   acc' <- visitors path n acc ;;
                   gone <- isDeleted path ;;
                   ret (acc', if gone : bool then deleted ++ [path] else deleted))
                (acc, []) ;;
  ast <- getAst ;;
  ret (r.1, applyDelete ast bin r.2).

(** Lines 47-53. *)
Definition removeStartFunc (bin : Bin) : M Bin :=
  r <- editWithAST (fun path n (_ : unit) =>
                      match n with
                      | Start _ => path_remove path
                      | _ => ret tt
                      end) tt bin ;;
  ret r.2.

(** Lines 159-182.  [globalType] is the import's own descriptor object:
    the assignment to its [mutability] is a write to the tree, and the new
    global is built around the same object. *)
Definition rewriteImportedGlobals (bin : Bin) : M Bin :=
  r <- editWithAST (fun path n (newGlobals : list Node) =>
                      match n with
                      | ModuleImport module name (GlobalTypeDescr globalType) =>
                          let globalType := mkGlobalType (valtype globalType) mut_var in
                          writeNode path (ModuleImport module name (GlobalTypeDescr globalType)) ;;
                          let newGlobals :=
                            newGlobals
                              ++ [Global globalType [objectInstruction "const" i32 [0]]] in
                          path_remove path ;;
                          ret newGlobals
                      | _ => ret newGlobals
                      end) [] bin ;;
  let (newGlobals, bin) := r in
  ast <- getAst ;;
  ret (addWithAST ast bin newGlobals).

(** Lines 197-243. *)
Definition addInitFunction (state : InitState) (bin : Bin) : M Bin :=
  ast <- getAst ;;
  ret (addWithAST ast bin (initNodes ast state)).

(** Lines 14-18.  The composed function calls [prevFn] before [nextFn]. *)
Definition compose {A} (fns : list (A -> M A)) : A -> M A :=
  fold_left (fun prevFn nextFn => fun value => v <- prevFn value ;; nextFn v)
            (rev fns) ret.

(** [transform] of lines 260-272. *)
Definition transform (state : InitState) : Bin -> M Bin :=
  compose [removeStartFunc; rewriteImportedGlobals; addInitFunction state].

(** Lines 254-274, on the decoded tree. *)
Definition generateM (bin : Bin) : M Bin :=
  state <- analyse ;;
  transform state bin.

(** [generate]: the new binary. *)
Definition generate (bin : Bin) : Bin :=
  (generateM bin (fresh (decode bin))).1.

(** The tree once [generate] is through with it. *)
Definition treeAfterGenerate (bin : Bin) : Program :=
  (generateM bin (fresh (decode bin))).2.

(** The order the specification gives: start removal, then interning, then
    synthesis. *)
Definition specifiedOrder (state : InitState) (bin : Bin) : M Bin :=
  bin1 <- removeStartFunc bin ;;
  bin2 <- rewriteImportedGlobals bin1 ;;
  addInitFunction state bin2.

End Generator.

(** ** A patch applier to run the generator on

    A buffer is kept as the module it was decoded from together with the
    edits applied to it since, in the order they were applied.  A buffer as
    the generator receives it has no edits yet. *)
Inductive Edit :=
| Deleted (refs : list NodeRef)
| Added (nodes : list Node).

Record Patched := mkPatched { original : list Node; edits : list Edit }.

Definition unpatched (nodes : list Node) : Patched := mkPatched nodes [].

Definition recordEdit (e : Edit) (b : Patched) : Patched :=
  mkPatched (original b) (edits b ++ [e]).

Definition script_delete (_ : Program) (b : Patched) (refs : list NodeRef) : Patched :=
  match refs with [] => b | _ => recordEdit (Deleted refs) b end.

Definition script_add (_ : Program) (b : Patched) (nodes : list Node) : Patched :=
  match nodes with [] => b | _ => recordEdit (Added nodes) b end.

#[export] Instance EditScript : PatchApplier Patched := {|
  decode := original;
  applyDelete := script_delete;
  addWithAST := script_add;
  applyDelete_nil := fun _ _ => eq_refl;
  addWithAST_nil := fun _ _ => eq_refl
|}.

(** What an edited buffer holds. *)
Definition deletedRefs (b : Patched) : list NodeRef :=
  flat_map (fun e => match e with Deleted refs => refs | Added _ => [] end) (edits b).

Definition addedNodes (b : Patched) : list Node :=
  flat_map (fun e => match e with Added nodes => nodes | Deleted _ => [] end) (edits b).

Fixpoint keepFrom (i : nat) (gone : list NodeRef) (l : list Node) : list Node :=
  match l with
  | [] => []
  | n :: l' =>
      if existsb (Nat.eqb i) gone then keepFrom (S i) gone l'
      else n :: keepFrom (S i) gone l'
  end.

Definition remaining (b : Patched) : list Node :=
  keepFrom 0 (deletedRefs b) (original b).

(** Modelled from the spec: where the patch applier puts an added node.
    Section 3 of the specification has defined entities "appended at the end
    of the existing index range", and [getNextTypeIndex] and
    [getNextFuncIndex] number the new type and function on the same footing:
    a section holds its surviving entries followed by the added ones. *)
Definition entries (b : Patched) : list Node :=
  remaining b ++ addedNodes b.

Definition isGlobal (n : Node) : bool :=
  match n with Global _ _ => true | _ => false end.

Definition isExport (n : Node) : bool :=
  match n with ModuleExport _ _ _ => true | _ => false end.

(** The global index space of a module: its imported globals, then the
    entries of its global section. *)
Definition globalIndexSpace (b : Patched) : list Node :=
  List.filter isGlobalImport (entries b) ++ List.filter isGlobal (entries b).

Definition exportSection (b : Patched) : list Node :=
  List.filter isExport (entries b).

(** ** The module, read off the decoded nodes

    What the analysis and the stages are compared with below. *)

Fixpoint refsFrom (p : Node -> bool) (i : nat) (nodes : list Node) : list NodeRef :=
  match nodes with
  | [] => []
  | n :: nodes' =>
      if p n then i :: refsFrom p (S i) nodes' else refsFrom p (S i) nodes'
  end.

(** The places of the nodes satisfying [p], in document order. *)
Definition refsOf (p : Node -> bool) (nodes : list Node) : list NodeRef :=
  refsFrom p 0 nodes.

Definition isStart (n : Node) : bool :=
  match n with Start _ => true | _ => false end.

Definition startIndexOf (n : Node) : option nat :=
  match n with Start index => Some index | _ => None end.

(** The start sections of a module (a valid module has at most one). *)
Definition starts (nodes : list Node) : list nat := omap startIndexOf nodes.

Definition sizeOfSection (sectionName : string) (n : Node) : option nat :=
  match n with
  | SectionMetadata section vectorOfSize =>
      if String.eqb section sectionName then Some vectorOfSize else None
  | _ => None
  end.

(** The metadata of the section called [sectionName] (at most one in a
    decoded module). *)
Definition sectionSizes (sectionName : string) (nodes : list Node) : list nat :=
  omap (sizeOfSection sectionName) nodes.

(** What is read off the nodes handed to [addWithAST]. *)
Definition funcName (n : Node) : option string :=
  match n with Func name _ _ => Some name | _ => None end.

Definition funcSignature (n : Node) : option Signature :=
  match n with Func _ signature _ => Some signature | _ => None end.

Definition funcBodyOf (n : Node) : option (list Instr) :=
  match n with Func _ _ body => Some body | _ => None end.

Definition exportName (n : Node) : option string :=
  match n with ModuleExport name _ _ => Some name | _ => None end.

Definition typeSignature (n : Node) : option Signature :=
  match n with TypeInstruction functype => Some functype | _ => None end.

(** The global imports of a module as (module, name, type), in declaration
    order. *)
Definition globalImportOf (n : Node) : option (string * string * GlobalType) :=
  match n with
  | ModuleImport module name (GlobalTypeDescr globalType) => Some (module, name, globalType)
  | _ => None
  end.

Definition globalImports (nodes : list Node) : list (string * string * GlobalType) :=
  omap globalImportOf nodes.

(** ** What the traversal and the stages compute

    The functions the lemmas below compare the code with. *)

(** What a visitor does at one node: [g] to the closure variables and [h]
    to the node object. *)
Definition localVisitor {A} (visit : Visitor A)
    (g : NodeRef -> Node -> A -> A) (h : Node -> Slot) : Prop :=
  forall pre n post acc,
    visit (length pre) n acc (pre ++ mkSlot n false :: post)
    = (g (length pre) n acc, pre ++ h n :: post).

Fixpoint foldFrom {A} (g : NodeRef -> Node -> A -> A) (i : nat) (l : Program) (acc : A) : A :=
  match l with
  | [] => acc
  | s :: l' => foldFrom g (S i) l' (if _deleted s then acc else g i (node s) acc)
  end.

Definition visited (h : Node -> Slot) (s : Slot) : Slot :=
  if _deleted s then s else h (node s).

(** A visitor that only reads. *)
Definition untouched (n : Node) : Slot := mkSlot n false.

(** The state object of [generate], read off the decoded nodes. *)
Definition analysis (nodes : list Node) : InitState :=
  let countImportedFunc := length (List.filter isFuncImport nodes) in
  mkInitState
    (refsOf isGlobalImport nodes)
    (last (starts nodes))
    (match last (sectionSizes "func" nodes) with
     | None => 0 + countImportedFunc
     | Some vectorOfSize => vectorOfSize + countImportedFunc
     end)
    (match last (sectionSizes "type" nodes) with
     | None => 0
     | Some vectorOfSize => vectorOfSize
     end).

(** The references [editWithAST] finds removed by a traversal. *)
Fixpoint removedFrom (h : Node -> Slot) (i : nat) (l : Program) : list NodeRef :=
  match l with
  | [] => []
  | s :: l' =>
      if negb (_deleted s) && _deleted (h (node s))
      then i :: removedFrom h (S i) l'
      else removedFrom h (S i) l'
  end.

(** What the visitor of [removeStartFunc] does to a node object. *)
Definition startRemoved (n : Node) : Slot := mkSlot n (isStart n).

Definition internedType (globalType : GlobalType) : GlobalType :=
  mkGlobalType (valtype globalType) mut_var.

(** What the visitor of [rewriteImportedGlobals] does to a node object... *)
Definition interned (n : Node) : Slot :=
  match n with
  | ModuleImport module name (GlobalTypeDescr globalType) =>
      mkSlot (ModuleImport module name (GlobalTypeDescr (internedType globalType))) true
  | _ => mkSlot n false
  end.

(** ... and the global it builds for it. *)
Definition internedGlobal (n : Node) : option Node :=
  match n with
  | ModuleImport _ _ (GlobalTypeDescr globalType) =>
      Some (Global (internedType globalType) [objectInstruction "const" i32 [0]])
  | _ => None
  end.

(** A node object after both editing stages. *)
Definition settled (n : Node) : Slot :=
  match n with
  | ModuleImport module name (GlobalTypeDescr globalType) =>
      mkSlot (ModuleImport module name (GlobalTypeDescr (internedType globalType))) true
  | Start index => mkSlot (Start index) true
  | _ => mkSlot n false
  end.

(** The nodes [generate] removes. *)
Definition isRemoved (n : Node) : bool := isGlobalImport n || isStart n.

(** The parameter an imported global stands for. *)
Definition initParam (i : string * string * GlobalType) : FuncParam :=
  funcParam (Some (valtype i.2)) (i.1.1 +:+ "." +:+ i.1.2).

(** Read parameter [i], write global [i]. *)
Definition readWrite (i : nat) : list Instr :=
  [instruction "get_local" [i]; instruction "set_global" [i]].

Definition trailingCall (startAtFuncIndex : option nat) : list Instr :=
  match startAtFuncIndex with
  | Some index => [callInstruction index]
  | None => []
  end.

(** The nodes still attached to a tree, in document order. *)
Definition attached (ast : Program) : list Node :=
  map node (List.filter (fun s => negb (_deleted s)) ast).

Definition isType (n : Node) : bool :=
  match n with TypeInstruction _ => true | _ => false end.

Definition isFuncIndex (n : Node) : bool :=
  match n with IndexInFuncSection _ => true | _ => false end.

Definition typeSection (b : Patched) : list Node :=
  List.filter isType (entries b).

(** The function index space of a module: its imported functions, then the
    entries of its function section. *)
Definition funcIndexSpace (b : Patched) : list Node :=
  List.filter isFuncImport (entries b) ++ List.filter isFuncIndex (entries b).

Definition globalValtype (n : Node) : option Valtype :=
  match n with Global globalType _ => Some (valtype globalType) | _ => None end.

(** ** A patch applier whose buffer is what it holds *)

(** Modelled from the spec: the patch applier (wasm-edit, not among the
    sources), after the collaborator contract of section 6 and the
    invariant of section 3 that defined entities are appended at the end of
    the existing index range.  The buffer is the module it stands for: the
    decoded nodes by reference, each still there or cut out, and the nodes
    added since, section by section in the order they were added.  Two
    buffers that hold the same are equal, whatever the order of the edits
    that made them. *)
Record Content := mkContent {
  kept : list (option Node);
  moreTypes : list Node;
  moreFuncs : list Node;
  moreGlobals : list Node;
  moreExports : list Node;
  moreCode : list Node;
  moreOther : list Node
}.

(** The buffer of a module as decoded. *)
Definition holding (nodes : list Node) : Content :=
  mkContent (map Some nodes) [] [] [] [] [] [].

Definition content_decode (b : Content) : list Node :=
  omap id (kept b) ++ moreTypes b ++ moreFuncs b ++ moreGlobals b
    ++ moreExports b ++ moreCode b ++ moreOther b.

Definition content_delete (_ : Program) (b : Content) (refs : list NodeRef) : Content :=
  match refs with
  | [] => b
  | _ =>
      mkContent (imap (fun i o => if existsb (Nat.eqb i) refs then None else o) (kept b))
                (moreTypes b) (moreFuncs b) (moreGlobals b) (moreExports b)
                (moreCode b) (moreOther b)
  end.

(** An added node goes to the end of its section. *)
Definition content_addNode (b : Content) (n : Node) : Content :=
  match n with
  | TypeInstruction _ =>
      mkContent (kept b) (moreTypes b ++ [n]) (moreFuncs b) (moreGlobals b)
                (moreExports b) (moreCode b) (moreOther b)
  | IndexInFuncSection _ =>
      mkContent (kept b) (moreTypes b) (moreFuncs b ++ [n]) (moreGlobals b)
                (moreExports b) (moreCode b) (moreOther b)
  | Global _ _ =>
      mkContent (kept b) (moreTypes b) (moreFuncs b) (moreGlobals b ++ [n])
                (moreExports b) (moreCode b) (moreOther b)
  | ModuleExport _ _ _ =>
      mkContent (kept b) (moreTypes b) (moreFuncs b) (moreGlobals b)
                (moreExports b ++ [n]) (moreCode b) (moreOther b)
  | Func _ _ _ =>
      mkContent (kept b) (moreTypes b) (moreFuncs b) (moreGlobals b)
                (moreExports b) (moreCode b ++ [n]) (moreOther b)
  | _ =>
      mkContent (kept b) (moreTypes b) (moreFuncs b) (moreGlobals b)
                (moreExports b) (moreCode b) (moreOther b ++ [n])
  end.

Definition content_add (_ : Program) (b : Content) (nodes : list Node) : Content :=
  fold_left content_addNode nodes b.

#[export] Instance ContentApplier : PatchApplier Content := {|
  decode := content_decode;
  applyDelete := content_delete;
  addWithAST := content_add;
  applyDelete_nil := fun _ _ => eq_refl;
  addWithAST_nil := fun _ _ => eq_refl
|}.

(** What the order of the stages asks of a patch applier: its result
    depends on the buffer and the request only, removals commute with each
    other and with additions, and additions to the global section commute
    with additions to the other sections. *)
Definition EditsCommute (Bin : Type) `{PatchApplier Bin} : Prop :=
  (forall t1 t2 t3 t4 (b : Bin) r1 r2,
      applyDelete t1 (applyDelete t2 b r1) r2 = applyDelete t3 (applyDelete t4 b r2) r1)
  /\ (forall t1 t2 t3 t4 (b : Bin) r nodes,
        addWithAST t1 (applyDelete t2 b r) nodes
        = applyDelete t3 (addWithAST t4 b nodes) r)
  /\ (forall t1 t2 t3 t4 (b : Bin) nodes globals,
        Forall (fun n => isGlobal n = false) nodes ->
        Forall (fun n => isGlobal n = true) globals ->
        addWithAST t1 (addWithAST t2 b nodes) globals
        = addWithAST t3 (addWithAST t4 b globals) nodes).

(** ** Sample modules *)

(** A function import and nothing to intern or to start. *)
Definition plainModule : list Node :=
  [SectionMetadata "type" 1; TypeInstruction (mkSignature [] []);
   SectionMetadata "import" 1; ModuleImport "env" "log" (FuncImportDescr 0)].

(** One type, an imported constant global, an imported function and a
    function of that type, and a start section naming the module's own
    function (function index 1). *)
Definition startedModule : list Node :=
  [SectionMetadata "type" 1; TypeInstruction (mkSignature [] []);
   SectionMetadata "import" 2;
   ModuleImport "env" "base" (GlobalTypeDescr (mkGlobalType i32 mut_const));
   ModuleImport "env" "log" (FuncImportDescr 0);
   SectionMetadata "func" 1; IndexInFuncSection 0;
   Start 1].

(** An imported global of type f64. *)
Definition floatModule : list Node :=
  [SectionMetadata "import" 1;
   ModuleImport "env" "ratio" (GlobalTypeDescr (mkGlobalType f64 mut_const))].

(** An imported global (global index 0) and a global of the module's own
    (global index 1). *)
Definition twoGlobalsModule : list Node :=
  [SectionMetadata "import" 1;
   ModuleImport "env" "base" (GlobalTypeDescr (mkGlobalType i32 mut_const));
   SectionMetadata "global" 1;
   Global (mkGlobalType i64 mut_var) [objectInstruction "const" i64 [7]]].

(** * Properties *)

(** ** The traversal *)

Lemma traverseFrom_local {A} (visit : Visitor A) g h :
  localVisitor visit g h ->
  forall post pre acc,
    traverseFrom visit (seq (length pre) (length post)) acc (pre ++ post)
    = (foldFrom g (length pre) post acc, pre ++ map (visited h) post).
Proof.
  intros Hloc post.
  induction post as [|[n d] post IH]; intros pre acc; cbn [length seq traverseFrom].
  - reflexivity.
  - rewrite list_lookup_middle by reflexivity.
    cbn [_deleted node map foldFrom visited].
    destruct d.
    + specialize (IH (pre ++ [mkSlot n true]) acc).
      rewrite length_app, Nat.add_1_r, <- !app_assoc in IH. exact IH.
    + rewrite Hloc.
      specialize (IH (pre ++ [h n]) (g (length pre) n acc)).
      rewrite length_app, Nat.add_1_r, <- !app_assoc in IH. exact IH.
Qed.

Lemma traverse_local {A} (visit : Visitor A) g h acc ast :
  localVisitor visit g h ->
  traverse visit acc ast = (foldFrom g 0 ast acc, map (visited h) ast).
Proof.
  intros Hloc. unfold traverse.
  exact (traverseFrom_local visit g h Hloc ast [] acc).
Qed.

Lemma visited_untouched ast : map (visited untouched) ast = ast.
Proof.
  induction ast as [|[n []] ast IH]; simpl; [reflexivity | |]; now rewrite IH.
Qed.


(** On the tree as decoded, the fold is JavaScript's [reduce] over the nodes. *)
Lemma foldFrom_fresh {A} (g : NodeRef -> Node -> A -> A) nodes : forall i acc,
  foldFrom g i (fresh nodes) acc = reduceFrom (fun a n r => g r n a) i nodes acc.
Proof.
  induction nodes as [|n nodes IH]; intros i acc; simpl; [reflexivity | apply IH].
Qed.

Lemma traverse_reader {A} (visit : Visitor A) (g : NodeRef -> Node -> A -> A) acc ast :
  (forall path n a t, visit path n a t = (g path n a, t)) ->
  traverse visit acc ast = (foldFrom g 0 ast acc, ast).
Proof.
  intros Hread. rewrite (traverse_local _ g untouched).
  - now rewrite visited_untouched.
  - intros pre n post a. apply Hread.
Qed.

(** ** The analysis on a decoded tree *)

Lemma omap_cons' {A B} (f : A -> option B) x l :
  omap f (x :: l) = match f x with Some y => y :: omap f l | None => omap f l end.
Proof. reflexivity. Qed.

Lemma reduce_last {A} (pick : Node -> option A) nodes : forall i acc,
  reduceFrom (fun a n (_ : nat) => match pick n with Some v => Some v | None => a end)
             i nodes acc
  = match last (omap pick nodes) with Some v => Some v | None => acc end.
Proof.
  induction nodes as [|n nodes IH]; intros i acc; cbn [reduceFrom].
  - reflexivity.
  - rewrite IH, omap_cons'. destruct (pick n) as [v|]; [|reflexivity].
    rewrite last_cons. now destruct (last (omap pick nodes)).
Qed.

Lemma reduce_refs (p : Node -> bool) nodes : forall i acc,
  reduceFrom (fun a n r => if p n then a ++ [r] else a) i nodes acc
  = acc ++ refsFrom p i nodes.
Proof.
  induction nodes as [|n nodes IH]; intros i acc; cbn [reduceFrom refsFrom].
  - now rewrite app_nil_r.
  - rewrite IH. destruct (p n); [now rewrite <- app_assoc | reflexivity].
Qed.

Lemma reduce_count (p : Node -> bool) nodes : forall i acc,
  reduceFrom (fun a n (_ : nat) => if p n then S a else a) i nodes acc
  = acc + length (List.filter p nodes).
Proof.
  induction nodes as [|n nodes IH]; intros i acc; cbn [reduceFrom List.filter].
  - now rewrite Nat.add_0_r.
  - rewrite IH. destruct (p n); cbn [length]; lia.
Qed.

Lemma getStartFuncIndex_fresh nodes :
  getStartFuncIndex (fresh nodes) = (last (starts nodes), fresh nodes).
Proof.
  unfold getStartFuncIndex.
  rewrite (traverse_reader _
             (fun _ n a => match startIndexOf n with Some v => Some v | None => a end)).
  - rewrite foldFrom_fresh, reduce_last. unfold starts.
    now destruct (last (omap startIndexOf nodes)).
  - intros path n a t. now destruct n.
Qed.

Lemma getImportedGlobals_fresh nodes :
  getImportedGlobals (fresh nodes) = (refsOf isGlobalImport nodes, fresh nodes).
Proof.
  unfold getImportedGlobals.
  rewrite (traverse_reader _ (fun r n a => if isGlobalImport n then a ++ [r] else a)).
  - now rewrite foldFrom_fresh, reduce_refs.
  - intros path n a t. destruct n as [? ? []| | | | | | | |]; reflexivity.
Qed.

Lemma getCountImportedFunc_fresh nodes :
  getCountImportedFunc (fresh nodes) = (length (List.filter isFuncImport nodes), fresh nodes).
Proof.
  unfold getCountImportedFunc.
  rewrite (traverse_reader _ (fun _ n a => if isFuncImport n then S a else a)).
  - now rewrite foldFrom_fresh, reduce_count.
  - intros path n a t. destruct n as [? ? []| | | | | | | |]; reflexivity.
Qed.

Lemma getSectionMetadata_fresh sectionName nodes :
  getSectionMetadata sectionName (fresh nodes)
  = (last (sectionSizes sectionName nodes), fresh nodes).
Proof.
  unfold getSectionMetadata.
  rewrite (traverse_reader _
             (fun _ n a => match sizeOfSection sectionName n with
                           | Some v => Some v | None => a end)).
  - rewrite foldFrom_fresh, reduce_last. unfold sectionSizes.
    now destruct (last (omap (sizeOfSection sectionName) nodes)).
  - intros path n a t. destruct n; try reflexivity.
    cbn [sizeOfSection]. now destruct (String.eqb section sectionName).
Qed.

Lemma getNextTypeIndex_fresh nodes :
  getNextTypeIndex (fresh nodes) = (nextTypeIndex (analysis nodes), fresh nodes).
Proof.
  unfold getNextTypeIndex, bind. rewrite getSectionMetadata_fresh.
  cbn [analysis nextTypeIndex]. now destruct (last (sectionSizes "type" nodes)).
Qed.

Lemma getNextFuncIndex_any count nodes :
  getNextFuncIndex count (fresh nodes)
  = (match last (sectionSizes "func" nodes) with
     | None => 0 + count
     | Some vectorOfSize => vectorOfSize + count
     end, fresh nodes).
Proof.
  unfold getNextFuncIndex, bind. rewrite getSectionMetadata_fresh.
  now destruct (last (sectionSizes "func" nodes)).
Qed.

Lemma getNextFuncIndex_fresh nodes :
  getNextFuncIndex (length (List.filter isFuncImport nodes)) (fresh nodes)
  = (nextFuncIndex (analysis nodes), fresh nodes).
Proof. apply getNextFuncIndex_any. Qed.

Lemma analyse_fresh nodes : analyse (fresh nodes) = (analysis nodes, fresh nodes).
Proof.
  unfold analyse, bind.
  rewrite getImportedGlobals_fresh, getCountImportedFunc_fresh, getStartFuncIndex_fresh,
    getNextFuncIndex_fresh, getNextTypeIndex_fresh.
  reflexivity.
Qed.

(** ** The stages *)

Lemma alter_middle {A} (f : A -> A) (pre : list A) x post :
  alter f (length pre) (pre ++ x :: post) = pre ++ f x :: post.
Proof. induction pre as [|y pre IH]; simpl; [reflexivity | now f_equal]. Qed.

Lemma foldFrom_edit {A} (g : NodeRef -> Node -> A -> A) (h : Node -> Slot) l :
  forall i a d,
    foldFrom (fun r n (ad : A * list NodeRef) =>
                (g r n ad.1, if _deleted (h n) then ad.2 ++ [r] else ad.2)) i l (a, d)
    = (foldFrom g i l a, d ++ removedFrom h i l).
Proof.
  induction l as [|[n del] l IH]; intros i a d; cbn [foldFrom removedFrom _deleted node].
  - now rewrite app_nil_r.
  - destruct del; cbn [negb andb fst snd]; [apply IH|].
    rewrite IH. destruct (_deleted (h n)); [now rewrite <- app_assoc | reflexivity].
Qed.

Section Stages.
Context {Bin : Type} `{PatchApplier Bin}.

Lemma editWithAST_local {A} (visitors : Visitor A) g h acc (bin : Bin) ast :
  localVisitor visitors g h ->
  editWithAST visitors acc bin ast
  = ((foldFrom g 0 ast acc,
      applyDelete (map (visited h) ast) bin (removedFrom h 0 ast)),
     map (visited h) ast).
Proof.
  intros Hloc. unfold editWithAST, bind at 1.
  rewrite (traverse_local _
             (fun r n (ad : A * list NodeRef) =>
                (g r n ad.1, if _deleted (h n) then ad.2 ++ [r] else ad.2)) h).
  - rewrite foldFrom_edit. reflexivity.
  - intros pre n post [a d]. unfold bind. rewrite Hloc.
    unfold isDeleted. rewrite list_lookup_middle by reflexivity. reflexivity.
Qed.

Lemma removeStartFunc_run (bin : Bin) ast :
  removeStartFunc bin ast
  = (applyDelete (map (visited startRemoved) ast) bin (removedFrom startRemoved 0 ast),
     map (visited startRemoved) ast).
Proof.
  unfold removeStartFunc, bind.
  rewrite (editWithAST_local _ (fun _ _ u => u) startRemoved); [reflexivity|].
  intros pre n post []. destruct n; try reflexivity.
  unfold path_remove. now rewrite alter_middle.
Qed.

Lemma rewriteImportedGlobals_run (bin : Bin) ast :
  rewriteImportedGlobals bin ast
  = (addWithAST (map (visited interned) ast)
       (applyDelete (map (visited interned) ast) bin (removedFrom interned 0 ast))
       (foldFrom (fun _ n newGlobals =>
                    match internedGlobal n with
                    | Some g => newGlobals ++ [g]
                    | None => newGlobals
                    end) 0 ast []),
     map (visited interned) ast).
Proof.
  unfold rewriteImportedGlobals, bind.
  rewrite (editWithAST_local _
             (fun _ n newGlobals =>
                match internedGlobal n with
                | Some g => newGlobals ++ [g]
                | None => newGlobals
                end) interned); [reflexivity|].
  intros pre n post newGlobals.
  destruct n as [module name [|globalType| |]| | | | | | | |]; try reflexivity.
  unfold bind, writeNode, path_remove. now rewrite !alter_middle.
Qed.

End Stages.

(** ** The stages on a decoded tree *)

Lemma visited_fresh (h : Node -> Slot) nodes :
  map (visited h) (fresh nodes) = map h nodes.
Proof. unfold fresh. rewrite map_map. reflexivity. Qed.

Lemma removed_interned_fresh nodes : forall i,
  removedFrom interned i (fresh nodes) = refsFrom isGlobalImport i nodes.
Proof.
  induction nodes as [|n nodes IH]; intros i; [reflexivity|].
  cbn [fresh map removedFrom refsFrom _deleted node negb andb].
  rewrite <- IH.
  destruct n as [module name [|globalType| |]| | | | | | | |]; reflexivity.
Qed.

Lemma newGlobals_fresh nodes : forall i acc,
  foldFrom (fun (_ : nat) n newGlobals =>
              match internedGlobal n with
              | Some g => newGlobals ++ [g]
              | None => newGlobals
              end) i (fresh nodes) acc
  = acc ++ omap internedGlobal nodes.
Proof.
  induction nodes as [|n nodes IH]; intros i acc.
  - cbn. now rewrite app_nil_r.
  - cbn [fresh map foldFrom _deleted node]. rewrite omap_cons'.
    specialize (IH (S i)). unfold fresh in IH. rewrite IH.
    destruct (internedGlobal n); [now rewrite <- app_assoc | reflexivity].
Qed.

Lemma visited_start_interned nodes :
  map (visited startRemoved) (map interned nodes) = map settled nodes.
Proof.
  rewrite map_map. apply map_ext. intros n.
  destruct n as [module name [|globalType| |]| | | | | | | |]; reflexivity.
Qed.

Lemma removed_start_interned nodes : forall i,
  removedFrom startRemoved i (map interned nodes) = refsFrom isStart i nodes.
Proof.
  induction nodes as [|n nodes IH]; intros i; [reflexivity|].
  cbn [map removedFrom refsFrom]. rewrite <- IH.
  destruct n as [module name [|globalType| |]| | | | | | | |]; reflexivity.
Qed.

Section Pipeline.
Context {Bin : Type} `{PatchApplier Bin}.

(** [compose] calls the function listed first last. *)
Lemma compose_cons {A} (f : A -> M A) fns value ast :
  compose (f :: fns) value ast = (v <- compose fns value ;; f v) ast.
Proof.
  unfold compose. cbn [rev]. rewrite fold_left_app. reflexivity.
Qed.

Lemma compose_nil {A} (value : A) ast : compose [] value ast = (value, ast).
Proof. reflexivity. Qed.

Lemma transform_run state (bin : Bin) ast :
  transform state bin ast
  = (bin1 <- addInitFunction state bin ;;
     bin2 <- rewriteImportedGlobals bin1 ;;
     removeStartFunc bin2) ast.
Proof.
  unfold transform. rewrite compose_cons. unfold bind at 1.
  rewrite compose_cons. unfold bind at 1.
  rewrite compose_cons. unfold bind at 1.
  rewrite compose_nil. unfold bind.
  destruct (addInitFunction state bin ast) as [bin1 ast1].
  now destruct (rewriteImportedGlobals bin1 ast1).
Qed.

(** The whole of [generate] on a decoded module. *)
Lemma generateM_fresh (bin : Bin) nodes :
  generateM bin (fresh nodes)
  = let bin1 := addWithAST (fresh nodes) bin (initNodes (fresh nodes) (analysis nodes)) in
    let bin2 := applyDelete (map interned nodes) bin1 (refsOf isGlobalImport nodes) in
    let bin3 := addWithAST (map interned nodes) bin2 (omap internedGlobal nodes) in
    (applyDelete (map settled nodes) bin3 (refsOf isStart nodes), map settled nodes).
Proof.
  unfold generateM, bind at 1. rewrite analyse_fresh, transform_run.
  unfold addInitFunction, bind, getAst, ret.
  rewrite rewriteImportedGlobals_run, removeStartFunc_run.
  rewrite visited_fresh, removed_interned_fresh, newGlobals_fresh.
  rewrite visited_start_interned, removed_start_interned.
  reflexivity.
Qed.

End Pipeline.

(** ** The init function on a decoded tree *)

Lemma funcParams_refs post : forall pre,
  funcParams (fresh (pre ++ post)) (refsFrom isGlobalImport (length pre) post)
  = map initParam (globalImports post).
Proof.
  induction post as [|n post IH]; intros pre; [reflexivity|].
  specialize (IH (pre ++ [n])).
  rewrite length_app, Nat.add_1_r, <- app_assoc in IH. cbn [app] in IH.
  unfold globalImports in *. rewrite omap_cons'. cbn [refsFrom].
  destruct n as [module name [|globalType| |]| | | | | | | |];
    cbn [isGlobalImport globalImportOf]; try exact IH.
  unfold funcParams in *. cbn [map]. rewrite IH. f_equal.
  unfold fresh. rewrite list_lookup_fmap, list_lookup_middle by reflexivity.
  reflexivity.
Qed.

Lemma funcParams_fresh nodes :
  funcParams (fresh nodes) (refsOf isGlobalImport nodes)
  = map initParam (globalImports nodes).
Proof. exact (funcParams_refs nodes []). Qed.

Lemma length_refs_globalImports nodes : forall i,
  length (refsFrom isGlobalImport i nodes) = length (globalImports nodes).
Proof.
  induction nodes as [|n nodes IH]; intros i; [reflexivity|].
  unfold globalImports in *. rewrite omap_cons'. cbn [refsFrom].
  destruct n as [module name [|globalType| |]| | | | | | | |];
    cbn [isGlobalImport globalImportOf length]; now rewrite IH.
Qed.

Lemma reduce_readWrite {A} (l : list A) : forall i acc,
  reduceFrom (fun acc (_ : A) index =>
                let args := [index] in
                let body := [instruction "get_local" args; instruction "set_global" args] in
                acc ++ body) i l acc
  = acc ++ flat_map readWrite (seq i (length l)).
Proof.
  induction l as [|x l IH]; intros i acc; cbn [reduceFrom length seq flat_map].
  - now rewrite app_nil_r.
  - rewrite IH, <- app_assoc. reflexivity.
Qed.

Lemma funcBody_fresh nodes :
  funcBody (refsOf isGlobalImport nodes) (last (starts nodes))
  = flat_map readWrite (seq 0 (length (globalImports nodes)))
      ++ trailingCall (last (starts nodes)).
Proof.
  unfold funcBody, reduce. rewrite reduce_readWrite. cbn [app].
  unfold refsOf. rewrite length_refs_globalImports.
  destruct (last (starts nodes)); cbn [trailingCall]; [reflexivity|].
  now rewrite app_nil_r.
Qed.

Lemma initNodes_fresh nodes :
  initNodes (fresh nodes) (analysis nodes)
  = let signature := mkSignature (map initParam (globalImports nodes)) [] in
    [Func initFuncId signature
       (flat_map readWrite (seq 0 (length (globalImports nodes)))
          ++ trailingCall (last (starts nodes)));
     ModuleExport initFuncId "Func" (nextFuncIndex (analysis nodes));
     IndexInFuncSection (nextTypeIndex (analysis nodes));
     TypeInstruction signature].
Proof.
  unfold initNodes.
  cbn [importedGlobals startAtFuncIndex analysis params result].
  rewrite funcParams_fresh, funcBody_fresh. reflexivity.
Qed.

(** ** Reading an edit script *)

Lemma addedNodes_add ast b nodes :
  addedNodes (script_add ast b nodes) = addedNodes b ++ nodes.
Proof.
  destruct nodes as [|n nodes]; cbn [script_add]; [now rewrite app_nil_r|].
  unfold addedNodes, recordEdit. cbn [edits].
  rewrite flat_map_app. cbn [flat_map]. now rewrite app_nil_r.
Qed.

Lemma addedNodes_delete ast b refs :
  addedNodes (script_delete ast b refs) = addedNodes b.
Proof.
  destruct refs as [|r refs]; cbn [script_delete]; [reflexivity|].
  unfold addedNodes, recordEdit. cbn [edits].
  rewrite flat_map_app. cbn [flat_map]. now rewrite app_nil_r.
Qed.

Lemma generate_script nodes :
  addedNodes (generate (unpatched nodes))
  = initNodes (fresh nodes) (analysis nodes) ++ omap internedGlobal nodes.
Proof.
  unfold generate. cbn [decode EditScript unpatched original].
  rewrite generateM_fresh. cbn [fst applyDelete addWithAST EditScript].
  rewrite addedNodes_delete, addedNodes_add, addedNodes_delete, addedNodes_add.
  reflexivity.
Qed.

Lemma omap_internedGlobal {A} (pick : Node -> option A) nodes :
  (forall globalType init, pick (Global globalType init) = None) ->
  omap pick (omap internedGlobal nodes) = [].
Proof.
  intros Hpick. induction nodes as [|n nodes IH]; [reflexivity|].
  rewrite omap_cons'.
  destruct n as [module name [|globalType| |]| | | | | | | |];
    cbn [internedGlobal]; try exact IH.
  rewrite omap_cons', Hpick. exact IH.
Qed.

Lemma length_refs_starts nodes : forall i,
  length (refsFrom isStart i nodes) = length (starts nodes).
Proof.
  induction nodes as [|n nodes IH]; intros i; [reflexivity|].
  unfold starts in *. rewrite omap_cons'. cbn [refsFrom].
  destruct n; cbn [isStart startIndexOf length]; now rewrite IH.
Qed.

Lemma internedGlobal_globalImports nodes :
  omap internedGlobal nodes
  = map (fun i : string * string * GlobalType =>
           Global (internedType i.2) [objectInstruction "const" i32 [0]])
        (globalImports nodes).
Proof.
  induction nodes as [|n nodes IH]; [reflexivity|].
  unfold globalImports in *. rewrite !omap_cons'.
  destruct n as [module name [|globalType| |]| | | | | | | |];
    cbn [internedGlobal globalImportOf map]; now rewrite IH.
Qed.

Lemma no_refs_no_globalImports nodes :
  refsOf isGlobalImport nodes = [] -> globalImports nodes = [].
Proof.
  unfold refsOf. intros Hrefs. apply nil_length_inv.
  now rewrite <- (length_refs_globalImports nodes 0), Hrefs.
Qed.

Lemma no_start_no_refs nodes :
  last (starts nodes) = None -> refsOf isStart nodes = [].
Proof.
  intros Hlast. apply last_None in Hlast. apply nil_length_inv.
  unfold refsOf. now rewrite length_refs_starts, Hlast.
Qed.

(** ** What the edited buffer holds *)

Lemma deletedRefs_add ast b nodes :
  deletedRefs (script_add ast b nodes) = deletedRefs b.
Proof.
  destruct nodes as [|n nodes]; cbn [script_add]; [reflexivity|].
  unfold deletedRefs, recordEdit. cbn [edits].
  rewrite flat_map_app. cbn [flat_map]. now rewrite app_nil_r.
Qed.

Lemma deletedRefs_delete ast b refs :
  deletedRefs (script_delete ast b refs) = deletedRefs b ++ refs.
Proof.
  destruct refs as [|r refs]; cbn [script_delete]; [now rewrite app_nil_r|].
  unfold deletedRefs, recordEdit. cbn [edits].
  rewrite flat_map_app. cbn [flat_map]. now rewrite app_nil_r.
Qed.

Lemma original_add ast b nodes : original (script_add ast b nodes) = original b.
Proof. now destruct nodes. Qed.

Lemma original_delete ast b refs : original (script_delete ast b refs) = original b.
Proof. now destruct refs. Qed.

Lemma generate_deleted nodes :
  deletedRefs (generate (unpatched nodes))
  = refsOf isGlobalImport nodes ++ refsOf isStart nodes.
Proof.
  unfold generate. cbn [decode EditScript unpatched original].
  rewrite generateM_fresh. cbn [fst applyDelete addWithAST EditScript].
  rewrite deletedRefs_delete, deletedRefs_add, deletedRefs_delete, deletedRefs_add.
  reflexivity.
Qed.

Lemma generate_original nodes : original (generate (unpatched nodes)) = nodes.
Proof.
  unfold generate. cbn [decode EditScript unpatched original].
  rewrite generateM_fresh. cbn [fst applyDelete addWithAST EditScript].
  now rewrite original_delete, original_add, original_delete, original_add.
Qed.

Lemma refsFrom_above (p : Node -> bool) nodes : forall i j,
  j < i -> existsb (Nat.eqb j) (refsFrom p i nodes) = false.
Proof.
  induction nodes as [|n nodes IH]; intros i j Hlt; cbn [refsFrom]; [reflexivity|].
  destruct (p n); cbn [existsb].
  - rewrite IH by lia. now rewrite (proj2 (Nat.eqb_neq j i)) by lia.
  - apply IH. lia.
Qed.

Lemma existsb_refsFrom (p : Node -> bool) nodes : forall i j n,
  nodes !! j = Some n -> existsb (Nat.eqb (i + j)) (refsFrom p i nodes) = p n.
Proof.
  induction nodes as [|m nodes IH]; intros i j n Hn; [discriminate|].
  destruct j as [|j]; cbn [refsFrom].
  - injection Hn as ->. rewrite Nat.add_0_r.
    destruct (p n); cbn [existsb].
    + now rewrite Nat.eqb_refl.
    + apply refsFrom_above. lia.
  - specialize (IH (S i) j n Hn).
    replace (S i + j) with (i + S j) in IH by lia.
    destruct (p m); cbn [existsb]; [|exact IH].
    rewrite IH. now rewrite (proj2 (Nat.eqb_neq (i + S j) i)) by lia.
Qed.

Lemma keepFrom_filter (q : Node -> bool) gone l : forall i,
  (forall j n, l !! j = Some n -> existsb (Nat.eqb (i + j)) gone = q n) ->
  keepFrom i gone l = List.filter (fun n => negb (q n)) l.
Proof.
  induction l as [|m l IH]; intros i Hgone; [reflexivity|].
  cbn [keepFrom List.filter].
  rewrite <- (Nat.add_0_r i) at 1. rewrite (Hgone 0 m eq_refl).
  rewrite (IH (S i)).
  - now destruct (q m).
  - intros j n Hn. rewrite <- (Hgone (S j) n Hn). f_equal. f_equal. lia.
Qed.

Lemma generate_remaining nodes :
  remaining (generate (unpatched nodes))
  = List.filter (fun n => negb (isRemoved n)) nodes.
Proof.
  unfold remaining. rewrite generate_deleted, generate_original.
  apply keepFrom_filter. intros j n Hn.
  rewrite existsb_app. unfold refsOf, isRemoved.
  now rewrite (existsb_refsFrom isGlobalImport nodes 0 j n Hn),
    (existsb_refsFrom isStart nodes 0 j n Hn).
Qed.

Lemma filter_remaining (p : Node -> bool) nodes :
  (forall n, isRemoved n = true -> p n = false) ->
  List.filter p (List.filter (fun n => negb (isRemoved n)) nodes) = List.filter p nodes.
Proof.
  intros Hp. induction nodes as [|n nodes IH]; [reflexivity|].
  cbn [List.filter]. destruct (isRemoved n) eqn:Hn; cbn [negb List.filter].
  - now rewrite (Hp n Hn).
  - now rewrite IH.
Qed.

Lemma filter_removed (p : Node -> bool) nodes :
  (forall n, p n = true -> isRemoved n = true) ->
  List.filter p (List.filter (fun n => negb (isRemoved n)) nodes) = [].
Proof.
  intros Hp. induction nodes as [|n nodes IH]; [reflexivity|].
  cbn [List.filter]. destruct (isRemoved n) eqn:Hn; cbn [negb List.filter]; [exact IH|].
  destruct (p n) eqn:Hpn; [|exact IH].
  rewrite (Hp n Hpn) in Hn. discriminate.
Qed.

Lemma filter_internedGlobals (p : Node -> bool) (keep : bool) nodes :
  (forall globalType init, p (Global globalType init) = keep) ->
  List.filter p (omap internedGlobal nodes)
  = if keep then omap internedGlobal nodes else [].
Proof.
  intros Hp. induction nodes as [|n nodes IH]; [now destruct keep|].
  rewrite omap_cons'.
  destruct n as [module name [|globalType| |]| | | | | | | |];
    cbn [internedGlobal]; try exact IH.
  cbn [List.filter]. rewrite Hp, IH. now destruct keep.
Qed.

Lemma keepFrom_nil l : forall i, keepFrom i [] l = l.
Proof. induction l as [|n l IH]; intros i; cbn; [reflexivity | now rewrite IH]. Qed.

(** ** The specification, property by property *)

(** X15: [compose] runs the stage listed last first: on every buffer and
    tree, the transform of [generate] is addInitFunction, then
    rewriteImportedGlobals on its result, then removeStartFunc. *)
Theorem transform_runs_last_listed_stage_first {Bin : Type} `{PatchApplier Bin}
    (state : InitState) (bin : Bin) (ast : Program) :
  transform state bin ast
  = (bin1 <- addInitFunction state bin ;;
     bin2 <- rewriteImportedGlobals bin1 ;;
     removeStartFunc bin2) ast.
Proof. apply transform_run. Qed.

(** C2, as the code has it: with no imported global and no start section the
    two editing stages leave the buffer alone, and the output is the input
    with the four nodes of an init function added: a function without
    parameters and with an empty body, its export, its function-section
    entry and its type. *)
Theorem generate_without_globals_or_start {Bin : Type} `{PatchApplier Bin} (bin : Bin) :
  (getImportedGlobals (fresh (decode bin))).1 = [] ->
  (getStartFuncIndex (fresh (decode bin))).1 = None ->
  generate bin
  = addWithAST (fresh (decode bin)) bin
      [Func initFuncId (mkSignature [] []) [];
       ModuleExport initFuncId "Func"
         (getNextFuncIndex (getCountImportedFunc (fresh (decode bin))).1
            (fresh (decode bin))).1;
       IndexInFuncSection (getNextTypeIndex (fresh (decode bin))).1;
       TypeInstruction (mkSignature [] [])].
Proof.
  rewrite getImportedGlobals_fresh, getStartFuncIndex_fresh, getCountImportedFunc_fresh.
  cbn [fst]. rewrite getNextFuncIndex_fresh, getNextTypeIndex_fresh.
  cbn [fst]. intros Hglobals Hstart.
  unfold generate. rewrite generateM_fresh. cbn [fst].
  rewrite initNodes_fresh, internedGlobal_globalImports.
  rewrite (no_start_no_refs _ Hstart), Hstart, Hglobals.
  rewrite (no_refs_no_globalImports _ Hglobals).
  cbn [map length seq flat_map trailingCall app].
  now rewrite !applyDelete_nil, addWithAST_nil.
Qed.

Lemma generate_without_globals_or_start_witness :
  generate (unpatched plainModule)
  = addWithAST (fresh plainModule) (unpatched plainModule)
      [Func initFuncId (mkSignature [] []) [];
       ModuleExport initFuncId "Func" 1;
       IndexInFuncSection 1;
       TypeInstruction (mkSignature [] [])].
Proof.
  exact (generate_without_globals_or_start (unpatched plainModule) eq_refl eq_refl).
Defined.

(** C2, as stated, fails: [plainModule] has no imported global and no start
    section, and the output is not the input: it has an export the input
    does not have. *)
Lemma output_differs_without_globals_or_start :
  exists bin : Patched,
    (getImportedGlobals (fresh (decode bin))).1 = []
    /\ (getStartFuncIndex (fresh (decode bin))).1 = None
    /\ generate bin <> bin
    /\ exportSection bin = []
    /\ exportSection (generate bin) = [ModuleExport "__webpack_init__" "Func" 1].
Proof.
  exists (unpatched plainModule).
  repeat split; try (vm_compute; reflexivity).
  vm_compute. discriminate.
Qed.

(** C3 at an imported global of type f64: the global appended for it is
    mutable and of type f64, and its initializer is the constant
    [i32.const 0], not a constant of type f64. *)
Theorem f64_import_gets_i32_initializer :
  globalImports floatModule = [("env", "ratio", mkGlobalType f64 mut_const)]
  /\ omap (fun n => if isGlobal n then Some n else None)
          (addedNodes (generate (unpatched floatModule)))
     = [Global (mkGlobalType f64 mut_var) [objectInstruction "const" i32 [0]]].
Proof. split; vm_compute; reflexivity. Qed.

(** C4 at a module with one imported global and one global of its own:
    before the interning stage index 0 is the import and index 1 the
    module's own global; after it index 0 is the module's own global and
    index 1 the interned one. *)
Theorem interned_global_lands_after_own_globals :
  globalIndexSpace (unpatched twoGlobalsModule)
  = [ModuleImport "env" "base" (GlobalTypeDescr (mkGlobalType i32 mut_const));
     Global (mkGlobalType i64 mut_var) [objectInstruction "const" i64 [7]]]
  /\ globalIndexSpace
       (rewriteImportedGlobals (unpatched twoGlobalsModule) (fresh twoGlobalsModule)).1
     = [Global (mkGlobalType i64 mut_var) [objectInstruction "const" i64 [7]];
        Global (mkGlobalType i32 mut_var) [objectInstruction "const" i32 [0]]]
  /\ globalIndexSpace (generate (unpatched twoGlobalsModule))
     = [Global (mkGlobalType i64 mut_var) [objectInstruction "const" i64 [7]];
        Global (mkGlobalType i32 mut_var) [objectInstruction "const" i32 [0]]].
Proof. repeat split; vm_compute; reflexivity. Qed.

(** C5: for every module, the one function [generate] adds has as its body
    a (get_local i, set_global i) pair for each i below the number k of
    imported globals, in order, followed by a call of the start function's
    index when the module has a start section and by nothing when it has
    none. *)
Theorem init_body_sets_each_global_then_calls_start (nodes : list Node) :
  omap funcBodyOf (addedNodes (generate (unpatched nodes)))
  = [flat_map readWrite (seq 0 (length (globalImports nodes)))
       ++ trailingCall (last (starts nodes))]
  /\ (forall index, starts nodes = [index] ->
        omap funcBodyOf (addedNodes (generate (unpatched nodes)))
        = [flat_map readWrite (seq 0 (length (globalImports nodes)))
             ++ [callInstruction index]])
  /\ (starts nodes = [] ->
        omap funcBodyOf (addedNodes (generate (unpatched nodes)))
        = [flat_map readWrite (seq 0 (length (globalImports nodes)))]).
Proof.
  assert (Hbody : omap funcBodyOf (addedNodes (generate (unpatched nodes)))
                  = [flat_map readWrite (seq 0 (length (globalImports nodes)))
                       ++ trailingCall (last (starts nodes))]).
  { rewrite generate_script, initNodes_fresh. cbv zeta.
    rewrite omap_app, omap_internedGlobal by reflexivity. reflexivity. }
  split; [exact Hbody | split].
  - intros index Hstart. rewrite Hbody, Hstart. reflexivity.
  - intros Hstart. rewrite Hbody, Hstart. cbn [last trailingCall].
    now rewrite app_nil_r.
Qed.

Lemma init_body_sets_each_global_then_calls_start_witness :
  omap funcBodyOf (addedNodes (generate (unpatched startedModule)))
  = [[instruction "get_local" [0]; instruction "set_global" [0]; callInstruction 1]].
Proof.
  exact (proj1 (proj2 (init_body_sets_each_global_then_calls_start startedModule))
           1 eq_refl).
Defined.

(** C6: [getNextTypeIndex] is 0 for a module without type section and the
    section's entry count when it has one; [getNextFuncIndex] is the number
    of imported functions for a module without function section, and the
    section's entry count plus that number when it has one. *)
Theorem next_indices (nodes : list Node) (countImportedFunc : nat) :
  (sectionSizes "type" nodes = [] -> (getNextTypeIndex (fresh nodes)).1 = 0)
  /\ (forall n, sectionSizes "type" nodes = [n] -> (getNextTypeIndex (fresh nodes)).1 = n)
  /\ (sectionSizes "func" nodes = [] ->
        (getNextFuncIndex countImportedFunc (fresh nodes)).1 = countImportedFunc)
  /\ (forall n, sectionSizes "func" nodes = [n] ->
        (getNextFuncIndex countImportedFunc (fresh nodes)).1 = n + countImportedFunc).
Proof.
  rewrite getNextTypeIndex_fresh, getNextFuncIndex_any.
  cbn [fst analysis nextTypeIndex].
  repeat split; intros; repeat match goal with Heq : _ = _ |- _ => rewrite Heq end;
    reflexivity.
Qed.

Lemma next_indices_witness :
  (getNextTypeIndex (fresh floatModule)).1 = 0
  /\ (getNextTypeIndex (fresh plainModule)).1 = 1
  /\ (getNextFuncIndex 1 (fresh plainModule)).1 = 1
  /\ (getNextFuncIndex 1 (fresh startedModule)).1 = 2.
Proof.
  refine (conj (proj1 (next_indices floatModule 1) eq_refl)
            (conj (proj1 (proj2 (next_indices plainModule 1)) 1 eq_refl)
               (conj (proj1 (proj2 (proj2 (next_indices plainModule 1))) eq_refl)
                  (proj2 (proj2 (proj2 (next_indices startedModule 1))) 1 eq_refl)))).
Defined.

(** C7: for every module, the function [generate] adds, and the type added
    with it, have one parameter per imported global, in the order of the
    imports, of the import's value type and named module.name, and no
    result. *)
Theorem init_signature_follows_imports (nodes : list Node) :
  omap funcSignature (addedNodes (generate (unpatched nodes)))
  = [mkSignature (map initParam (globalImports nodes)) []]
  /\ omap typeSignature (addedNodes (generate (unpatched nodes)))
     = [mkSignature (map initParam (globalImports nodes)) []].
Proof.
  rewrite generate_script, initNodes_fresh. cbv zeta.
  rewrite !omap_app, !omap_internedGlobal by reflexivity.
  split; reflexivity.
Qed.

(** C8: on every decoded tree the analysis functions return a value and
    leave the tree as it is; without global imports [getImportedGlobals] is
    the empty list, without function imports [getCountImportedFunc] is 0,
    without start section [getStartFuncIndex] is undefined, without type
    section [getNextTypeIndex] is 0, and without function section
    [getNextFuncIndex] is 0 plus the count it is given. *)
Theorem analysis_defaults (nodes : list Node) (countImportedFunc : nat) :
  (globalImports nodes = [] -> getImportedGlobals (fresh nodes) = ([], fresh nodes))
  /\ (List.filter isFuncImport nodes = [] ->
        getCountImportedFunc (fresh nodes) = (0, fresh nodes))
  /\ (starts nodes = [] -> getStartFuncIndex (fresh nodes) = (None, fresh nodes))
  /\ (sectionSizes "type" nodes = [] -> getNextTypeIndex (fresh nodes) = (0, fresh nodes))
  /\ (sectionSizes "func" nodes = [] ->
        getNextFuncIndex countImportedFunc (fresh nodes)
        = (0 + countImportedFunc, fresh nodes)).
Proof.
  rewrite getImportedGlobals_fresh, getCountImportedFunc_fresh, getStartFuncIndex_fresh,
    getNextTypeIndex_fresh, getNextFuncIndex_any.
  cbn [analysis nextTypeIndex].
  repeat split; intros Habsent; rewrite ?Habsent; try reflexivity.
  f_equal. apply nil_length_inv. unfold refsOf.
  now rewrite length_refs_globalImports, Habsent.
Qed.

Lemma analysis_defaults_witness :
  getImportedGlobals (fresh plainModule) = ([], fresh plainModule)
  /\ getStartFuncIndex (fresh plainModule) = (None, fresh plainModule)
  /\ getNextFuncIndex 1 (fresh plainModule) = (1, fresh plainModule)
  /\ getCountImportedFunc (fresh floatModule) = (0, fresh floatModule)
  /\ getNextTypeIndex (fresh floatModule) = (0, fresh floatModule).
Proof.
  refine (conj (proj1 (analysis_defaults plainModule 1) eq_refl)
            (conj (proj1 (proj2 (proj2 (analysis_defaults plainModule 1))) eq_refl)
               (conj (proj2 (proj2 (proj2 (proj2 (analysis_defaults plainModule 1)))) eq_refl)
                  (conj (proj1 (proj2 (analysis_defaults floatModule 0)) eq_refl)
                     (proj1 (proj2 (proj2 (proj2 (analysis_defaults floatModule 0))))
                        eq_refl))))).
Defined.

Lemma analyse_any ast : (analyse ast).2 = ast.
Proof.
  assert (Hread : forall {A} (visit : Visitor A) (g : NodeRef -> Node -> A -> A) acc,
             (forall path n a t, visit path n a t = (g path n a, t)) ->
             (traverse visit acc ast).2 = ast).
  { intros A visit g acc Hvisit. now rewrite (traverse_reader visit g). }
  assert (Hmeta : forall name, (getSectionMetadata name ast).2 = ast).
  { intros name. unfold getSectionMetadata.
    apply (Hread _ _ (fun _ n a => match sizeOfSection name n with
                                   | Some v => Some v | None => a end)).
    intros path n a t. destruct n; try reflexivity.
    cbn [sizeOfSection]. now destruct (String.eqb section name). }
  assert (Hglobals : (getImportedGlobals ast).2 = ast).
  { apply (Hread _ _ (fun r n a => if isGlobalImport n then a ++ [r] else a)).
    intros path n a t. destruct n as [? ? []| | | | | | | |]; reflexivity. }
  assert (Hcount : (getCountImportedFunc ast).2 = ast).
  { apply (Hread _ _ (fun _ n a => if isFuncImport n then S a else a)).
    intros path n a t. destruct n as [? ? []| | | | | | | |]; reflexivity. }
  assert (Hstart : (getStartFuncIndex ast).2 = ast).
  { apply (Hread _ _ (fun _ n a => match startIndexOf n with
                                   | Some v => Some v | None => a end)).
    intros path n a t. now destruct n. }
  unfold analyse, bind.
  destruct (getImportedGlobals ast) as [refs t1]. cbn [snd] in Hglobals. subst t1.
  destruct (getCountImportedFunc ast) as [count t2]. cbn [snd] in Hcount. subst t2.
  destruct (getStartFuncIndex ast) as [start t3]. cbn [snd] in Hstart. subst t3.
  unfold getNextFuncIndex, getNextTypeIndex, bind.
  pose proof (Hmeta "func") as Hfunc. pose proof (Hmeta "type") as Htype.
  destruct (getSectionMetadata "func" ast) as [[size|] t4]; cbn [snd] in Hfunc; subst t4;
    unfold ret at 1;
    destruct (getSectionMetadata "type" ast) as [[types|] t5]; cbn [snd] in Htype;
    subst t5; reflexivity.
Qed.

Lemma newGlobals_any ast : forall i acc,
  foldFrom (fun (_ : nat) n newGlobals =>
              match internedGlobal n with
              | Some g => newGlobals ++ [g]
              | None => newGlobals
              end) i ast acc
  = acc ++ omap internedGlobal (attached ast).
Proof.
  unfold attached.
  induction ast as [|[n d] ast IH]; intros i acc.
  - cbn. now rewrite app_nil_r.
  - cbn [foldFrom List.filter _deleted node]. rewrite IH.
    destruct d; cbn [negb map]; [reflexivity|].
    rewrite omap_cons'. cbn [node]. destruct (internedGlobal n); [|reflexivity].
    now rewrite <- app_assoc.
Qed.

(** C9, as the code has it: the analysis only reads the tree, and
    [addInitFunction] hands it to the patch applier as it got it, but the two
    editing stages write to it before they call the patch applier.  On
    whatever tree it starts from, [rewriteImportedGlobals] hands over the
    tree in which every attached global import has the mutability "var" in
    its descriptor, with module, name and value type as they were, and is
    removed; [removeStartFunc] hands over the tree in which the start node
    is removed; the visitors write to no other node. *)
Theorem stages_write_to_global_imports_and_start {Bin : Type} `{PatchApplier Bin}
    (bin : Bin) (ast : Program) :
  (analyse ast).2 = ast
  /\ (forall state,
        (addInitFunction state bin ast).1 = addWithAST ast bin (initNodes ast state))
  /\ (removeStartFunc bin ast).1
     = applyDelete (map (visited startRemoved) ast) bin (removedFrom startRemoved 0 ast)
  /\ (exists later,
        (rewriteImportedGlobals bin ast).1
        = addWithAST later
            (applyDelete (map (visited interned) ast) bin (removedFrom interned 0 ast))
            (omap internedGlobal (attached ast)))
  /\ (forall module name globalType,
        visited interned
          (mkSlot (ModuleImport module name (GlobalTypeDescr globalType)) false)
        = mkSlot (ModuleImport module name
                    (GlobalTypeDescr (mkGlobalType (valtype globalType) mut_var))) true)
  /\ (forall s, _deleted s || negb (isGlobalImport (node s)) = true ->
                visited interned s = s)
  /\ (forall index, visited startRemoved (mkSlot (Start index) false)
                    = mkSlot (Start index) true)
  /\ (forall s, _deleted s || negb (isStart (node s)) = true ->
                visited startRemoved s = s).
Proof.
  split; [apply analyse_any|].
  split; [reflexivity|].
  split; [now rewrite removeStartFunc_run|].
  split; [rewrite rewriteImportedGlobals_run, newGlobals_any; eauto|].
  split; [reflexivity|].
  split.
  { intros [n []] Hs; [reflexivity|]. unfold visited. cbn [_deleted node] in *.
    destruct n as [module name [|globalType| |]| | | | | | | |];
      try reflexivity; discriminate. }
  split; [reflexivity|].
  intros [n []] Hs; [reflexivity|]. unfold visited. cbn [_deleted node] in *.
  destruct n; try reflexivity; discriminate.
Qed.

Lemma stages_write_to_global_imports_and_start_witness :
  visited interned (mkSlot (ModuleImport "env" "log" (FuncImportDescr 0)) false)
  = mkSlot (ModuleImport "env" "log" (FuncImportDescr 0)) false
  /\ visited startRemoved (mkSlot (ModuleImport "env" "log" (FuncImportDescr 0)) false)
     = mkSlot (ModuleImport "env" "log" (FuncImportDescr 0)) false.
Proof.
  exact (conj
           (proj1 (proj2 (proj2 (proj2 (proj2 (proj2
              (stages_write_to_global_imports_and_start
                 (unpatched plainModule) (fresh plainModule)))))))
              (mkSlot (ModuleImport "env" "log" (FuncImportDescr 0)) false) eq_refl)
           (proj2 (proj2 (proj2 (proj2 (proj2 (proj2 (proj2
              (stages_write_to_global_imports_and_start
                 (unpatched plainModule) (fresh plainModule))))))))
              (mkSlot (ModuleImport "env" "log" (FuncImportDescr 0)) false) eq_refl)).
Defined.

(** C9, as stated, fails: the import of [floatModule] is decoded with the
    mutability "const" and has the mutability "var" once the interning stage
    has run, and still has it when [generate] returns. *)
Lemma interning_writes_to_import_descriptor :
  exists bin : Patched,
    node <$> fresh (decode bin) !! 1
    = Some (ModuleImport "env" "ratio" (GlobalTypeDescr (mkGlobalType f64 mut_const)))
    /\ node <$> (rewriteImportedGlobals bin (fresh (decode bin))).2 !! 1
       = Some (ModuleImport "env" "ratio" (GlobalTypeDescr (mkGlobalType f64 mut_var)))
    /\ node <$> treeAfterGenerate bin !! 1
       = Some (ModuleImport "env" "ratio" (GlobalTypeDescr (mkGlobalType f64 mut_var)))
    /\ map node (treeAfterGenerate bin) <> decode bin.
Proof.
  exists (unpatched floatModule).
  repeat split; try (vm_compute; reflexivity).
  vm_compute. discriminate.
Qed.

(** C10: for every module, the function [generate] adds is named
    "__webpack_init__", and so is the one export it adds. *)
Theorem init_function_is_named_webpack_init (nodes : list Node) :
  omap funcName (addedNodes (generate (unpatched nodes))) = [initFuncId]
  /\ omap exportName (addedNodes (generate (unpatched nodes))) = [initFuncId]
  /\ initFuncId = "__webpack_init__".
Proof.
  rewrite generate_script, initNodes_fresh. cbv zeta.
  rewrite !omap_app, !omap_internedGlobal by reflexivity.
  repeat split.
Qed.

(** ** Further properties of the generator *)

(** X1: for every module, the globals [generate] adds are one per imported
    global, in the order of the imports, each mutable, of the import's value
    type, and initialised by [i32.const 0]. *)
Theorem interning_adds_a_mutable_global_per_import (nodes : list Node) :
  List.filter isGlobal (addedNodes (generate (unpatched nodes)))
  = map (fun i : string * string * GlobalType =>
           Global (mkGlobalType (valtype i.2) mut_var)
                  [objectInstruction "const" i32 [0]])
        (globalImports nodes).
Proof.
  rewrite generate_script, initNodes_fresh. cbv zeta.
  rewrite List.filter_app, (filter_internedGlobals isGlobal true) by reflexivity.
  cbn [List.filter isGlobal app]. apply internedGlobal_globalImports.
Qed.

(** X2: for every module, the global index space is the imported globals followed
    by the module's own globals before [generate], and the module's own
    globals followed by the interned ones after it. *)
Theorem global_index_space_after_generate (nodes : list Node) :
  globalIndexSpace (unpatched nodes)
  = List.filter isGlobalImport nodes ++ List.filter isGlobal nodes
  /\ globalIndexSpace (generate (unpatched nodes))
     = List.filter isGlobal nodes
         ++ map (fun i : string * string * GlobalType =>
                   Global (mkGlobalType (valtype i.2) mut_var)
                          [objectInstruction "const" i32 [0]])
                (globalImports nodes).
Proof.
  split.
  - unfold globalIndexSpace, entries, remaining, addedNodes, deletedRefs.
    cbn [unpatched edits original flat_map]. now rewrite keepFrom_nil, app_nil_r.
  - unfold globalIndexSpace, entries.
    rewrite generate_remaining, generate_script, initNodes_fresh. cbv zeta.
    rewrite !List.filter_app.
    rewrite (filter_internedGlobals isGlobal true),
      (filter_internedGlobals isGlobalImport false) by reflexivity.
    rewrite (filter_removed isGlobalImport), (filter_remaining isGlobal).
    + cbn [List.filter isGlobal isGlobalImport app].
      now rewrite internedGlobal_globalImports.
    + intros n. unfold isRemoved.
      destruct n as [module name [|globalType| |]| | | | | | | |]; cbn; congruence.
    + intros n Hn. unfold isRemoved. now rewrite Hn.
Qed.

(** X3: for every module, the output of [generate] holds no global import and no
    start section, and its exports are those of the input followed by the
    export of the init function, whose index is the size of the function
    section plus the number of imported functions. *)
Theorem output_sections (nodes : list Node) :
  List.filter isGlobalImport (entries (generate (unpatched nodes))) = []
  /\ List.filter isStart (entries (generate (unpatched nodes))) = []
  /\ exportSection (generate (unpatched nodes))
     = List.filter isExport nodes
         ++ [ModuleExport initFuncId "Func"
               (from_option id 0 (last (sectionSizes "func" nodes))
                  + length (List.filter isFuncImport nodes))].
Proof.
  unfold exportSection, entries.
  rewrite generate_remaining, generate_script, initNodes_fresh. cbv zeta.
  rewrite !List.filter_app.
  rewrite (filter_internedGlobals isGlobalImport false),
    (filter_internedGlobals isStart false),
    (filter_internedGlobals isExport false) by reflexivity.
  rewrite (filter_removed isGlobalImport), (filter_removed isStart),
    (filter_remaining isExport).
  - cbn [List.filter isGlobalImport isStart isExport app analysis nextFuncIndex].
    repeat split. now destruct (last (sectionSizes "func" nodes)).
  - intros n. unfold isRemoved.
    destruct n as [module name [|globalType| |]| | | | | | | |]; cbn; congruence.
  - intros n Hn. unfold isRemoved. rewrite Hn. apply orb_true_r.
  - intros n Hn. unfold isRemoved. now rewrite Hn.
Qed.

Lemma removed_start_fresh nodes : forall i,
  removedFrom startRemoved i (fresh nodes) = refsFrom isStart i nodes.
Proof.
  induction nodes as [|n nodes IH]; intros i; [reflexivity|].
  cbn [fresh map removedFrom refsFrom _deleted node negb andb startRemoved].
  now rewrite <- IH.
Qed.

Lemma startRemoved_without_start nodes :
  starts nodes = [] -> map startRemoved nodes = fresh nodes.
Proof.
  unfold starts. induction nodes as [|n nodes IH]; [reflexivity|].
  rewrite omap_cons'. destruct n; cbn [startIndexOf]; try discriminate;
    intros Hnone; cbn [map fresh]; now rewrite IH.
Qed.

Lemma interned_without_globalImports nodes :
  globalImports nodes = [] -> map interned nodes = fresh nodes.
Proof.
  unfold globalImports. induction nodes as [|n nodes IH]; [reflexivity|].
  rewrite omap_cons'.
  destruct n as [module name [|globalType| |]| | | | | | | |];
    cbn [globalImportOf]; try discriminate;
    intros Hnone; cbn [map fresh]; now rewrite IH.
Qed.

(** X4: on a module without start section [removeStartFunc] returns the buffer
    it is given, and on a module without imported globals so does
    [rewriteImportedGlobals]; neither touches the tree. *)
Theorem stages_with_nothing_to_do {Bin : Type} `{PatchApplier Bin}
    (bin : Bin) (nodes : list Node) :
  (starts nodes = [] -> removeStartFunc bin (fresh nodes) = (bin, fresh nodes))
  /\ (globalImports nodes = [] ->
        rewriteImportedGlobals bin (fresh nodes) = (bin, fresh nodes)).
Proof.
  split.
  - intros Hnone. rewrite removeStartFunc_run, visited_fresh, removed_start_fresh.
    rewrite (startRemoved_without_start _ Hnone).
    replace (refsFrom isStart 0 nodes) with (@nil nat).
    + now rewrite applyDelete_nil.
    + symmetry. apply nil_length_inv. now rewrite length_refs_starts, Hnone.
  - intros Hnone.
    rewrite rewriteImportedGlobals_run, visited_fresh, removed_interned_fresh,
      newGlobals_fresh.
    rewrite (interned_without_globalImports _ Hnone), internedGlobal_globalImports, Hnone.
    replace (refsFrom isGlobalImport 0 nodes) with (@nil nat).
    + cbn [map app]. now rewrite applyDelete_nil, addWithAST_nil.
    + symmetry. apply nil_length_inv. now rewrite length_refs_globalImports, Hnone.
Qed.

Lemma stages_with_nothing_to_do_witness :
  removeStartFunc (unpatched plainModule) (fresh plainModule)
  = (unpatched plainModule, fresh plainModule)
  /\ rewriteImportedGlobals (unpatched plainModule) (fresh plainModule)
     = (unpatched plainModule, fresh plainModule).
Proof.
  exact (conj (proj1 (stages_with_nothing_to_do (unpatched plainModule) plainModule) eq_refl)
              (proj2 (stages_with_nothing_to_do (unpatched plainModule) plainModule) eq_refl)).
Defined.

(** ** [compose] on any list of transforms *)

Lemma fold_compose_from {A} (l : list (A -> M A)) : forall (g : A -> M A) value ast,
  fold_left (fun prevFn nextFn => fun value => v <- prevFn value ;; nextFn v) l g value ast
  = (v <- g value ;;
     fold_left (fun prevFn nextFn => fun value => v <- prevFn value ;; nextFn v) l ret v) ast.
Proof.
  induction l as [|f l IH]; intros g value ast; cbn [fold_left].
  - unfold bind, ret. now destruct (g value ast).
  - rewrite (IH (fun value => v <- g value ;; f v)).
    unfold bind at 1 2 4.
    destruct (g value ast) as [v ast1].
    symmetry. rewrite (IH (fun value => v0 <- ret value ;; f v0)).
    reflexivity.
Qed.

(** X5: [compose] of no function hands its argument back and leaves the
    tree alone, [compose] of one function is that function, and [compose] of
    a list in two parts runs the second part first and the first part on
    its result. *)
Theorem compose_runs_right_to_left {A : Type} (fns1 fns2 : list (A -> M A))
    (f : A -> M A) (value : A) (ast : Program) :
  compose [] value ast = (value, ast)
  /\ compose [f] value ast = f value ast
  /\ compose (fns1 ++ fns2) value ast
     = (v <- compose fns2 value ;; compose fns1 v) ast.
Proof.
  repeat split.
  unfold compose. rewrite rev_app_distr, fold_left_app.
  apply fold_compose_from.
Qed.

(** ** The analysis on any tree *)

Lemma foldFrom_attached {A} (g : Node -> A -> A) ast : forall i acc,
  foldFrom (fun _ n a => g n a) i ast acc
  = fold_left (fun a n => g n a) (attached ast) acc.
Proof.
  unfold attached.
  induction ast as [|[n d] ast IH]; intros i acc; [reflexivity|].
  cbn [foldFrom List.filter _deleted node].
  destruct d; cbn [negb map fold_left]; apply IH.
Qed.

Lemma fold_last {A} (pick : Node -> option A) nodes : forall acc,
  fold_left (fun a n => match pick n with Some v => Some v | None => a end) nodes acc
  = match last (omap pick nodes) with Some v => Some v | None => acc end.
Proof.
  induction nodes as [|n nodes IH]; intros acc; cbn [fold_left]; [reflexivity|].
  rewrite IH, omap_cons'. destruct (pick n) as [v|]; [|reflexivity].
  rewrite last_cons. now destruct (last (omap pick nodes)).
Qed.

Lemma fold_count (p : Node -> bool) nodes : forall acc,
  fold_left (fun a n => if p n then S a else a) nodes acc
  = acc + length (List.filter p nodes).
Proof.
  induction nodes as [|n nodes IH]; intros acc; cbn [fold_left List.filter].
  - now rewrite Nat.add_0_r.
  - rewrite IH. destruct (p n); cbn [length]; lia.
Qed.

Lemma getStartFuncIndex_any ast :
  getStartFuncIndex ast = (last (starts (attached ast)), ast).
Proof.
  unfold getStartFuncIndex.
  rewrite (traverse_reader _
             (fun _ n a => match startIndexOf n with Some v => Some v | None => a end)).
  - rewrite (foldFrom_attached
               (fun n a => match startIndexOf n with Some v => Some v | None => a end)).
    rewrite fold_last. unfold starts.
    now destruct (last (omap startIndexOf (attached ast))).
  - intros path n a t. now destruct n.
Qed.

Lemma getCountImportedFunc_any ast :
  getCountImportedFunc ast = (length (List.filter isFuncImport (attached ast)), ast).
Proof.
  unfold getCountImportedFunc.
  rewrite (traverse_reader _ (fun _ n a => if isFuncImport n then S a else a)).
  - rewrite (foldFrom_attached (fun n a => if isFuncImport n then S a else a)).
    now rewrite fold_count.
  - intros path n a t. destruct n as [? ? []| | | | | | | |]; reflexivity.
Qed.

Lemma getSectionMetadata_any sectionName ast :
  getSectionMetadata sectionName ast
  = (last (sectionSizes sectionName (attached ast)), ast).
Proof.
  unfold getSectionMetadata.
  rewrite (traverse_reader _
             (fun _ n a => match sizeOfSection sectionName n with
                           | Some v => Some v | None => a end)).
  - rewrite (foldFrom_attached
               (fun n a => match sizeOfSection sectionName n with
                           | Some v => Some v | None => a end)).
    rewrite fold_last. unfold sectionSizes.
    now destruct (last (omap (sizeOfSection sectionName) (attached ast))).
  - intros path n a t. destruct n; try reflexivity.
    cbn [sizeOfSection]. now destruct (String.eqb section sectionName).
Qed.

Lemma getImportedGlobals_any ast : (getImportedGlobals ast).2 = ast.
Proof.
  unfold getImportedGlobals.
  rewrite (traverse_reader _ (fun r n a => if isGlobalImport n then a ++ [r] else a));
    [reflexivity|].
  intros path n a t. destruct n as [? ? []| | | | | | | |]; reflexivity.
Qed.

(** X6: on every tree, also one with removed nodes, the analysis functions
    leave the tree as it is, and what they return is read off the attached
    nodes alone: the index of the last start node, the number of function
    imports, and the entry counts of the type and function sections. *)
Theorem analysis_reads_attached_nodes_only (ast : Program) (countImportedFunc : nat) :
  getStartFuncIndex ast = (last (starts (attached ast)), ast)
  /\ getCountImportedFunc ast = (length (List.filter isFuncImport (attached ast)), ast)
  /\ getNextTypeIndex ast
     = (from_option id 0 (last (sectionSizes "type" (attached ast))), ast)
  /\ getNextFuncIndex countImportedFunc ast
     = (from_option id 0 (last (sectionSizes "func" (attached ast))) + countImportedFunc,
        ast)
  /\ (getImportedGlobals ast).2 = ast
  /\ (analyse ast).2 = ast.
Proof.
  assert (Htype : getNextTypeIndex ast
                  = (from_option id 0 (last (sectionSizes "type" (attached ast))), ast)).
  { unfold getNextTypeIndex, bind. rewrite getSectionMetadata_any.
    now destruct (last (sectionSizes "type" (attached ast))). }
  assert (Hfunc : forall count,
             getNextFuncIndex count ast
             = (from_option id 0 (last (sectionSizes "func" (attached ast))) + count, ast)).
  { intros count. unfold getNextFuncIndex, bind. rewrite getSectionMetadata_any.
    now destruct (last (sectionSizes "func" (attached ast))). }
  split; [apply getStartFuncIndex_any|].
  split; [apply getCountImportedFunc_any|].
  split; [exact Htype|].
  split; [apply Hfunc|].
  split; [apply getImportedGlobals_any|].
  unfold analyse, bind.
  pose proof (getImportedGlobals_any ast) as Hglobals.
  destruct (getImportedGlobals ast) as [refs ast1]. cbn [snd] in Hglobals. subst ast1.
  now rewrite getCountImportedFunc_any, getStartFuncIndex_any, Hfunc, Htype.
Qed.

(** ** The references of [getImportedGlobals] *)

Lemma refsFrom_lookup (p : Node -> bool) post : forall pre,
  map (fun r => (pre ++ post) !! r) (refsFrom p (length pre) post)
  = map Some (List.filter p post).
Proof.
  induction post as [|n post IH]; intros pre; [reflexivity|].
  specialize (IH (pre ++ [n])).
  rewrite length_app, Nat.add_1_r, <- app_assoc in IH. cbn [app] in IH.
  cbn [refsFrom List.filter]. destruct (p n); [|exact IH].
  cbn [map]. rewrite IH. f_equal. now apply list_lookup_middle.
Qed.

(** X7: on a decoded module [getImportedGlobals] returns one reference per
    global import, in declaration order, each reaching that import, and
    [getCountImportedFunc] returns the number of function imports. *)
Theorem importedGlobals_reach_the_global_imports (nodes : list Node) :
  map (fun r => nodes !! r) (getImportedGlobals (fresh nodes)).1
  = map Some (List.filter isGlobalImport nodes)
  /\ length (getImportedGlobals (fresh nodes)).1 = length (globalImports nodes)
  /\ (getCountImportedFunc (fresh nodes)).1 = length (List.filter isFuncImport nodes).
Proof.
  rewrite getImportedGlobals_fresh, getCountImportedFunc_fresh. cbn [fst].
  repeat split.
  - exact (refsFrom_lookup isGlobalImport nodes []).
  - apply length_refs_globalImports.
Qed.

(** ** The stages in the specified order *)

Lemma visited_interned_startRemoved nodes :
  map (visited interned) (map startRemoved nodes) = map settled nodes.
Proof.
  rewrite map_map. apply map_ext. intros n.
  destruct n as [module name [|globalType| |]| | | | | | | |]; reflexivity.
Qed.

Lemma removed_interned_startRemoved nodes : forall i,
  removedFrom interned i (map startRemoved nodes) = refsFrom isGlobalImport i nodes.
Proof.
  induction nodes as [|n nodes IH]; intros i; [reflexivity|].
  cbn [map removedFrom refsFrom]. rewrite <- IH.
  destruct n as [module name [|globalType| |]| | | | | | | |]; reflexivity.
Qed.

Lemma newGlobals_startRemoved nodes : forall i acc,
  foldFrom (fun (_ : nat) n newGlobals =>
              match internedGlobal n with
              | Some g => newGlobals ++ [g]
              | None => newGlobals
              end) i (map startRemoved nodes) acc
  = acc ++ omap internedGlobal nodes.
Proof.
  induction nodes as [|n nodes IH]; intros i acc.
  - cbn. now rewrite app_nil_r.
  - cbn [map foldFrom]. rewrite omap_cons', IH.
    destruct n as [module name [|globalType| |]| | | | | | | |];
      cbn [startRemoved isStart _deleted node internedGlobal]; try reflexivity.
    now rewrite <- app_assoc.
Qed.

Lemma funcParams_settled post : forall pre,
  funcParams (map settled (pre ++ post)) (refsFrom isGlobalImport (length pre) post)
  = map initParam (globalImports post).
Proof.
  induction post as [|n post IH]; intros pre; [reflexivity|].
  specialize (IH (pre ++ [n])).
  rewrite length_app, Nat.add_1_r, <- app_assoc in IH. cbn [app] in IH.
  unfold globalImports in *. rewrite omap_cons'. cbn [refsFrom].
  destruct n as [module name [|globalType| |]| | | | | | | |];
    cbn [isGlobalImport globalImportOf]; try exact IH.
  unfold funcParams in *. cbn [map]. rewrite IH. f_equal.
  rewrite list_lookup_fmap, list_lookup_middle by reflexivity.
  reflexivity.
Qed.

Lemma initNodes_settled nodes :
  initNodes (map settled nodes) (analysis nodes)
  = initNodes (fresh nodes) (analysis nodes).
Proof.
  pose proof (funcParams_settled nodes []) as Hsettled. cbn [app length] in Hsettled.
  unfold initNodes. cbn [importedGlobals analysis]. unfold refsOf.
  rewrite Hsettled. fold (refsOf isGlobalImport nodes).
  now rewrite funcParams_fresh.
Qed.

Lemma specifiedOrder_fresh {Bin : Type} `{PatchApplier Bin} (bin : Bin) nodes :
  specifiedOrder (analysis nodes) bin (fresh nodes)
  = let bin1 := applyDelete (map startRemoved nodes) bin (refsOf isStart nodes) in
    let bin2 := applyDelete (map settled nodes) bin1 (refsOf isGlobalImport nodes) in
    let bin3 := addWithAST (map settled nodes) bin2 (omap internedGlobal nodes) in
    (addWithAST (map settled nodes) bin3 (initNodes (fresh nodes) (analysis nodes)),
     map settled nodes).
Proof.
  unfold specifiedOrder, bind at 1. rewrite removeStartFunc_run.
  rewrite visited_fresh, removed_start_fresh.
  unfold bind at 1. rewrite rewriteImportedGlobals_run.
  rewrite visited_interned_startRemoved, removed_interned_startRemoved,
    newGlobals_startRemoved.
  unfold addInitFunction, bind, getAst, ret.
  now rewrite initNodes_settled.
Qed.

(** X8: read off the edits the patch applier is asked for, the three stages
    run in the specified order on a decoded module ask for the removal of
    the same references and the addition of the same nodes as [generate]
    does, in another order: [generate] adds the init nodes first and
    removes the start node last, the specified order removes the start node
    first and adds the init nodes last. *)
Theorem specified_order_makes_the_same_requests (nodes : list Node) :
  addedNodes (generate (unpatched nodes))
  = initNodes (fresh nodes) (analysis nodes) ++ omap internedGlobal nodes
  /\ addedNodes (specifiedOrder (analysis nodes) (unpatched nodes) (fresh nodes)).1
     = omap internedGlobal nodes ++ initNodes (fresh nodes) (analysis nodes)
  /\ deletedRefs (generate (unpatched nodes))
     = refsOf isGlobalImport nodes ++ refsOf isStart nodes
  /\ deletedRefs (specifiedOrder (analysis nodes) (unpatched nodes) (fresh nodes)).1
     = refsOf isStart nodes ++ refsOf isGlobalImport nodes.
Proof.
  split; [apply generate_script|].
  rewrite generate_deleted, specifiedOrder_fresh.
  cbn [fst applyDelete addWithAST EditScript].
  rewrite addedNodes_add, addedNodes_add, addedNodes_delete, addedNodes_delete.
  rewrite deletedRefs_add, deletedRefs_add, deletedRefs_delete, deletedRefs_delete.
  repeat split.
Qed.

(** ** The output on the edit-recording applier, in both orders *)

Lemma generate_entries nodes :
  entries (generate (unpatched nodes))
  = List.filter (fun n => negb (isRemoved n)) nodes
      ++ initNodes (fresh nodes) (analysis nodes) ++ omap internedGlobal nodes.
Proof. unfold entries. now rewrite generate_remaining, generate_script. Qed.

Lemma specifiedOrder_entries nodes :
  entries (specifiedOrder (analysis nodes) (unpatched nodes) (fresh nodes)).1
  = List.filter (fun n => negb (isRemoved n)) nodes
      ++ omap internedGlobal nodes ++ initNodes (fresh nodes) (analysis nodes).
Proof.
  rewrite specifiedOrder_fresh. cbn [fst applyDelete addWithAST EditScript].
  unfold entries, remaining.
  rewrite addedNodes_add, addedNodes_add, addedNodes_delete, addedNodes_delete.
  rewrite deletedRefs_add, deletedRefs_add, deletedRefs_delete, deletedRefs_delete.
  rewrite original_add, original_add, original_delete, original_delete.
  cbn [unpatched original edits addedNodes deletedRefs flat_map app].
  f_equal. apply keepFrom_filter. intros j n Hn.
  rewrite existsb_app. unfold refsOf, isRemoved.
  rewrite (existsb_refsFrom isGlobalImport nodes 0 j n Hn),
    (existsb_refsFrom isStart nodes 0 j n Hn).
  apply orb_comm.
Qed.

Lemma filter_either_order (p : Node -> bool) (l1 l2 : list Node) :
  List.filter p l1 = [] \/ List.filter p l2 = [] ->
  List.filter p (l1 ++ l2) = List.filter p (l2 ++ l1).
Proof.
  rewrite !List.filter_app. intros [Hnone | Hnone]; rewrite Hnone;
    now rewrite app_nil_r.
Qed.

Lemma section_in_both_orders (p : Node -> bool) nodes :
  List.filter p (initNodes (fresh nodes) (analysis nodes)) = []
  \/ List.filter p (omap internedGlobal nodes) = [] ->
  List.filter p (entries (generate (unpatched nodes)))
  = List.filter p
      (entries (specifiedOrder (analysis nodes) (unpatched nodes) (fresh nodes)).1).
Proof.
  intros Hone. rewrite generate_entries, specifiedOrder_entries.
  rewrite (List.filter_app p _ (initNodes _ _ ++ _)),
    (List.filter_app p _ (omap _ _ ++ _)).
  f_equal. now apply filter_either_order.
Qed.

(** X9: on the edit-recording applier, whose sections hold their surviving
    entries followed by the added ones, the output of [generate] and the
    output of the stages run in the specified order hold the same surviving
    nodes and the same global index space, type section, function index
    space and export section. *)
Theorem both_orders_give_the_same_sections (nodes : list Node) :
  remaining (generate (unpatched nodes))
  = remaining (specifiedOrder (analysis nodes) (unpatched nodes) (fresh nodes)).1
  /\ globalIndexSpace (generate (unpatched nodes))
     = globalIndexSpace
         (specifiedOrder (analysis nodes) (unpatched nodes) (fresh nodes)).1
  /\ typeSection (generate (unpatched nodes))
     = typeSection (specifiedOrder (analysis nodes) (unpatched nodes) (fresh nodes)).1
  /\ funcIndexSpace (generate (unpatched nodes))
     = funcIndexSpace (specifiedOrder (analysis nodes) (unpatched nodes) (fresh nodes)).1
  /\ exportSection (generate (unpatched nodes))
     = exportSection (specifiedOrder (analysis nodes) (unpatched nodes) (fresh nodes)).1.
Proof.
  assert (Hglobals : forall p : Node -> bool,
             (forall globalType init, p (Global globalType init) = false) ->
             List.filter p (initNodes (fresh nodes) (analysis nodes)) = []
             \/ List.filter p (omap internedGlobal nodes) = []).
  { intros p Hp. right. now rewrite (filter_internedGlobals p false). }
  split.
  { pose proof (generate_entries nodes) as Ha.
    pose proof (specifiedOrder_entries nodes) as Hb.
    unfold entries in Ha, Hb. rewrite generate_script in Ha.
    apply app_inv_tail in Ha. rewrite Ha.
    rewrite specifiedOrder_fresh in Hb |- *.
    cbn [fst applyDelete addWithAST EditScript] in Hb |- *.
    rewrite addedNodes_add, addedNodes_add, addedNodes_delete, addedNodes_delete in Hb.
    cbn [unpatched edits addedNodes flat_map app] in Hb.
    apply app_inv_tail in Hb. now rewrite Hb. }
  unfold globalIndexSpace, typeSection, funcIndexSpace, exportSection.
  rewrite <- !section_in_both_orders; try (repeat split; reflexivity);
    try (apply Hglobals; reflexivity).
  left. now rewrite initNodes_fresh.
Qed.

(** X10: [generate] removes the global imports and the start section and
    nothing else: the output holds every other node of the input, in the
    input's order, followed by the four init nodes and the interned
    globals; the imported functions in particular are those of the input. *)
Theorem generate_keeps_every_other_node (nodes : list Node) :
  entries (generate (unpatched nodes))
  = List.filter (fun n => negb (isGlobalImport n || isStart n)) nodes
      ++ initNodes (fresh nodes) (analysis nodes) ++ omap internedGlobal nodes
  /\ List.filter isFuncImport (entries (generate (unpatched nodes)))
     = List.filter isFuncImport nodes.
Proof.
  split; [apply generate_entries|].
  rewrite generate_entries, initNodes_fresh. cbv zeta.
  rewrite !List.filter_app, (filter_internedGlobals isFuncImport false) by reflexivity.
  rewrite (filter_remaining isFuncImport).
  - cbn [List.filter isFuncImport app]. now rewrite app_nil_r.
  - intros n. unfold isRemoved.
    destruct n as [module name [|globalType| |]| | | | | | | |]; cbn; congruence.
Qed.

(** ** The indices of the init function *)

Lemma generate_section (p : Node -> bool) nodes :
  (forall n, isRemoved n = true -> p n = false) ->
  (forall globalType init, p (Global globalType init) = false) ->
  List.filter p (entries (generate (unpatched nodes)))
  = List.filter p nodes ++ List.filter p (initNodes (fresh nodes) (analysis nodes)).
Proof.
  intros Hkept Hglobal. rewrite generate_entries, !List.filter_app.
  rewrite (filter_remaining p _ Hkept), (filter_internedGlobals p false _ Hglobal).
  now rewrite app_nil_r.
Qed.

Lemma removed_is_import_or_start (p : Node -> bool) :
  (forall module name globalType,
      p (ModuleImport module name (GlobalTypeDescr globalType)) = false) ->
  (forall index, p (Start index) = false) ->
  forall n, isRemoved n = true -> p n = false.
Proof.
  intros Himport Hstart n. unfold isRemoved.
  destruct n as [module name [|globalType| |]| | | | | | | |]; cbn; auto; discriminate.
Qed.

(** X11: when the section metadata of the decoded module count its type
    entries and its function-section entries, the indices [generate] hands
    out are the right ones on an applier that appends: in the output the
    type at index nextTypeIndex is the signature of the init function, the
    function at index nextFuncIndex (imported functions first) is the init
    function's entry with that type index, and the export added last names
    that function index. *)
Theorem init_function_indices_are_consistent (nodes : list Node) :
  from_option id 0 (last (sectionSizes "type" nodes)) = length (List.filter isType nodes) ->
  from_option id 0 (last (sectionSizes "func" nodes))
  = length (List.filter isFuncIndex nodes) ->
  typeSection (generate (unpatched nodes)) !! nextTypeIndex (analysis nodes)
  = Some (TypeInstruction (mkSignature (map initParam (globalImports nodes)) []))
  /\ funcIndexSpace (generate (unpatched nodes)) !! nextFuncIndex (analysis nodes)
     = Some (IndexInFuncSection (nextTypeIndex (analysis nodes)))
  /\ last (exportSection (generate (unpatched nodes)))
     = Some (ModuleExport initFuncId "Func" (nextFuncIndex (analysis nodes))).
Proof.
  intros Htype Hfunc.
  assert (HnextType : nextTypeIndex (analysis nodes) = length (List.filter isType nodes)).
  { rewrite <- Htype. cbn [analysis nextTypeIndex].
    now destruct (last (sectionSizes "type" nodes)). }
  assert (HnextFunc : nextFuncIndex (analysis nodes)
                      = length (List.filter isFuncImport nodes)
                        + length (List.filter isFuncIndex nodes)).
  { rewrite <- Hfunc. cbn [analysis nextFuncIndex].
    destruct (last (sectionSizes "func" nodes)); cbn [from_option id]; lia. }
  unfold typeSection, funcIndexSpace, exportSection.
  rewrite !generate_section
    by (try (apply removed_is_import_or_start); reflexivity).
  rewrite initNodes_fresh. cbv zeta.
  cbn [List.filter isType isFuncImport isFuncIndex isExport].
  repeat split.
  - rewrite HnextType. now apply list_lookup_middle.
  - rewrite HnextFunc, app_nil_r.
    rewrite lookup_app_r by (rewrite <- HnextFunc; lia).
    replace (length (List.filter isFuncImport nodes)
             + length (List.filter isFuncIndex nodes)
             - length (List.filter isFuncImport nodes))
      with (length (List.filter isFuncIndex nodes)) by lia.
    now apply list_lookup_middle.
  - now rewrite last_snoc.
Qed.

Lemma init_function_indices_are_consistent_witness :
  typeSection (generate (unpatched plainModule)) !! 1
  = Some (TypeInstruction (mkSignature [] []))
  /\ funcIndexSpace (generate (unpatched plainModule)) !! 1
     = Some (IndexInFuncSection 1)
  /\ last (exportSection (generate (unpatched plainModule)))
     = Some (ModuleExport initFuncId "Func" 1).
Proof.
  exact (init_function_indices_are_consistent plainModule eq_refl eq_refl).
Defined.

(** ** The globals the init function writes *)

Lemma globalIndexSpace_generate nodes :
  globalIndexSpace (generate (unpatched nodes))
  = List.filter isGlobal nodes ++ omap internedGlobal nodes.
Proof.
  unfold globalIndexSpace. rewrite generate_entries, initNodes_fresh. cbv zeta.
  rewrite !List.filter_app.
  rewrite (filter_internedGlobals isGlobal true),
    (filter_internedGlobals isGlobalImport false) by reflexivity.
  rewrite (filter_removed isGlobalImport), (filter_remaining isGlobal).
  - reflexivity.
  - apply removed_is_import_or_start; reflexivity.
  - intros n Hn. unfold isRemoved. now rewrite Hn.
Qed.

Lemma lookup_internedGlobal nodes i module name globalType :
  globalImports nodes !! i = Some (module, name, globalType) ->
  omap internedGlobal nodes !! i
  = Some (Global (mkGlobalType (valtype globalType) mut_var)
                 [objectInstruction "const" i32 [0]]).
Proof.
  intros Hi. rewrite internedGlobal_globalImports, list_lookup_fmap, Hi. reflexivity.
Qed.

(** X12: for a module without globals of its own, on an applier that
    appends, the global index space of the output is the interned globals in
    the order of the imports: global index i, which the init function
    writes parameter i to, is the mutable global that stands for import i
    and has its value type. *)
Theorem interned_globals_are_at_the_indices_written (nodes : list Node) :
  List.filter isGlobal nodes = [] ->
  length (globalIndexSpace (generate (unpatched nodes))) = length (globalImports nodes)
  /\ forall i module name globalType,
       globalImports nodes !! i = Some (module, name, globalType) ->
       globalIndexSpace (generate (unpatched nodes)) !! i
       = Some (Global (mkGlobalType (valtype globalType) mut_var)
                      [objectInstruction "const" i32 [0]]).
Proof.
  intros Hown. rewrite globalIndexSpace_generate, Hown. cbn [app]. split.
  - now rewrite internedGlobal_globalImports, length_map.
  - intros i module name globalType. apply lookup_internedGlobal.
Qed.

Lemma interned_globals_are_at_the_indices_written_witness :
  length (globalIndexSpace (generate (unpatched startedModule))) = 1
  /\ globalIndexSpace (generate (unpatched startedModule)) !! 0
     = Some (Global (mkGlobalType i32 mut_var) [objectInstruction "const" i32 [0]]).
Proof.
  exact (conj (proj1 (interned_globals_are_at_the_indices_written startedModule eq_refl))
              (proj2 (interned_globals_are_at_the_indices_written startedModule eq_refl)
                     0 "env" "base" (mkGlobalType i32 mut_const) eq_refl)).
Defined.

(** X13: for every module, parameter i of the init function and the i-th
    global [generate] adds have the same value type, and there are as many
    parameters as added globals as read-write pairs in the body. *)
Theorem parameters_match_the_added_globals (nodes : list Node) :
  exists ps body,
    omap funcSignature (addedNodes (generate (unpatched nodes))) = [mkSignature ps []]
    /\ omap funcBodyOf (addedNodes (generate (unpatched nodes))) = [body]
    /\ map fp_valtype ps
       = map globalValtype (List.filter isGlobal (addedNodes (generate (unpatched nodes))))
    /\ length body = 2 * length ps + length (trailingCall (last (starts nodes))).
Proof.
  exists (map initParam (globalImports nodes)),
    (flat_map readWrite (seq 0 (length (globalImports nodes)))
       ++ trailingCall (last (starts nodes))).
  rewrite generate_script, initNodes_fresh. cbv zeta.
  rewrite !omap_app, !omap_internedGlobal by reflexivity.
  rewrite List.filter_app, (filter_internedGlobals isGlobal true) by reflexivity.
  cbn [List.filter isGlobal app omap list_omap funcSignature funcBodyOf].
  repeat split.
  - rewrite internedGlobal_globalImports, !map_map. reflexivity.
  - rewrite length_app, length_map. f_equal.
    generalize 0 at 1. induction (length (globalImports nodes)) as [|k IH]; intros i.
    + reflexivity.
    + cbn [seq flat_map readWrite length app]. rewrite IH. lia.
Qed.

(** ** Running an editing stage again *)

Lemma visited_again (h : Node -> Slot) ast :
  (forall n, _deleted (h n) = false -> h n = mkSlot n false) ->
  map (visited h) (map (visited h) ast) = map (visited h) ast.
Proof.
  intros Hh. rewrite map_map. apply map_ext. intros [n d].
  unfold visited at 2 3. cbn [_deleted node]. destruct d; [reflexivity|].
  unfold visited. destruct (_deleted (h n)) eqn:Hd; [reflexivity|].
  rewrite (Hh n Hd). cbn [_deleted node]. apply (Hh n Hd).
Qed.

Lemma removed_again (h : Node -> Slot) ast :
  (forall n, _deleted (h n) = false -> h n = mkSlot n false) ->
  forall i, removedFrom h i (map (visited h) ast) = [].
Proof.
  intros Hh. induction ast as [|[n d] ast IH]; intros i; [reflexivity|].
  cbn [map removedFrom]. rewrite IH.
  unfold visited. cbn [_deleted node]. destruct d; [reflexivity|].
  destruct (_deleted (h n)) eqn:Hd; [reflexivity|].
  rewrite (Hh n Hd). cbn [_deleted node negb andb]. now rewrite Hd.
Qed.

Lemma newGlobals_again ast : forall i acc,
  foldFrom (fun (_ : nat) n newGlobals =>
              match internedGlobal n with
              | Some g => newGlobals ++ [g]
              | None => newGlobals
              end) i (map (visited interned) ast) acc
  = acc.
Proof.
  induction ast as [|[n d] ast IH]; intros i acc; [reflexivity|].
  cbn [map foldFrom]. rewrite IH.
  unfold visited. cbn [_deleted node]. destruct d; [reflexivity|].
  destruct n as [module name [|globalType| |]| | | | | | | |]; reflexivity.
Qed.

(** X14: on every tree, running [removeStartFunc] a second time, or
    [rewriteImportedGlobals] a second time, removes and adds nothing: the
    second run hands back the buffer and the tree the first run left. *)
Theorem editing_stages_do_nothing_the_second_time {Bin : Type} `{PatchApplier Bin}
    (bin : Bin) (ast : Program) :
  removeStartFunc (removeStartFunc bin ast).1 (removeStartFunc bin ast).2
  = removeStartFunc bin ast
  /\ rewriteImportedGlobals (rewriteImportedGlobals bin ast).1
       (rewriteImportedGlobals bin ast).2
     = rewriteImportedGlobals bin ast.
Proof.
  split.
  - rewrite !removeStartFunc_run. cbn [fst snd].
    rewrite visited_again, removed_again, applyDelete_nil; [reflexivity | |];
      intros n; unfold startRemoved; cbn [_deleted]; now intros ->.
  - rewrite !rewriteImportedGlobals_run. cbn [fst snd].
    rewrite visited_again, removed_again, newGlobals_again, applyDelete_nil,
      addWithAST_nil; [reflexivity | |];
      intros n; destruct n as [module name [|globalType| |]| | | | | | | |];
      cbn [interned _deleted]; intros Hd; try reflexivity; discriminate.
Qed.

(** ** The output in the order of the code and in the specified order *)

Lemma internedGlobals_are_globals nodes :
  Forall (fun n => isGlobal n = true) (omap internedGlobal nodes).
Proof.
  induction nodes as [|n nodes IH]; [constructor|].
  rewrite omap_cons'.
  destruct n as [module name [|globalType| |]| | | | | | | |];
    cbn [internedGlobal]; try exact IH.
  now constructor.
Qed.

Lemma initNodes_are_no_globals ast state :
  Forall (fun n => isGlobal n = false) (initNodes ast state).
Proof. unfold initNodes. repeat constructor. Qed.

Lemma generate_specified_commute {Bin : Type} `{PatchApplier Bin} (bin : Bin) nodes :
  EditsCommute Bin ->
  (generateM bin (fresh nodes)).1
  = (specifiedOrder (analysis nodes) bin (fresh nodes)).1.
Proof.
  intros (Hdd & Had & Haa).
  rewrite generateM_fresh, specifiedOrder_fresh. cbv zeta. cbn [fst].
  pose proof (internedGlobals_are_globals nodes) as Hglobals.
  pose proof (initNodes_are_no_globals (fresh nodes) (analysis nodes)) as Hinit.
  set (T := map settled nodes).
  rewrite <- (Haa T T T T _ _ _ Hinit Hglobals).
  rewrite (Had T T T T _ (refsOf isGlobalImport nodes)).
  rewrite (Had T (map startRemoved nodes) T (fresh nodes) bin (refsOf isStart nodes)).
  rewrite (Hdd T T T (map interned nodes) _ (refsOf isStart nodes)
             (refsOf isGlobalImport nodes)).
  rewrite (Had T T T (map interned nodes) _ (refsOf isStart nodes)).
  reflexivity.
Qed.

Lemma content_addNode_delete t b refs n :
  content_addNode (content_delete t b refs) n
  = content_delete t (content_addNode b n) refs.
Proof. destruct refs; [reflexivity|]. destruct n; reflexivity. Qed.

Lemma content_add_delete t1 t2 t3 t4 nodes : forall b refs,
  content_add t1 (content_delete t2 b refs) nodes
  = content_delete t3 (content_add t4 b nodes) refs.
Proof.
  unfold content_add.
  induction nodes as [|n nodes IH]; intros b refs; cbn [fold_left]; [reflexivity|].
  rewrite (content_addNode_delete t2). apply IH.
Qed.

(** The buffer with more globals at the end of its global section. *)
Lemma content_add_globals t globals : forall b,
  Forall (fun n => isGlobal n = true) globals ->
  content_add t b globals
  = mkContent (kept b) (moreTypes b) (moreFuncs b) (moreGlobals b ++ globals)
              (moreExports b) (moreCode b) (moreOther b).
Proof.
  unfold content_add.
  induction globals as [|g globals IH]; intros b Hall; cbn [fold_left].
  - rewrite app_nil_r. now destruct b.
  - inversion Hall as [|g' gs Hg Hrest]; subst.
    rewrite (IH _ Hrest).
    destruct g; try discriminate. cbn [content_addNode kept moreTypes moreFuncs
      moreGlobals moreExports moreCode moreOther].
    now rewrite <- app_assoc.
Qed.

Lemma content_add_others t nodes globals : forall b,
  Forall (fun n => isGlobal n = false) nodes ->
  content_add t
    (mkContent (kept b) (moreTypes b) (moreFuncs b) (moreGlobals b ++ globals)
               (moreExports b) (moreCode b) (moreOther b)) nodes
  = mkContent (kept (content_add t b nodes)) (moreTypes (content_add t b nodes))
              (moreFuncs (content_add t b nodes))
              (moreGlobals (content_add t b nodes) ++ globals)
              (moreExports (content_add t b nodes)) (moreCode (content_add t b nodes))
              (moreOther (content_add t b nodes)).
Proof.
  unfold content_add.
  induction nodes as [|n nodes IH]; intros b Hall; cbn [fold_left]; [reflexivity|].
  inversion Hall as [|n' ns Hn Hrest]; subst.
  rewrite <- (IH _ Hrest).
  destruct n; try discriminate; reflexivity.
Qed.

Lemma content_edits_commute : EditsCommute Content.
Proof.
  split; [|split].
  - intros t1 t2 t3 t4 b r1 r2. cbn [applyDelete ContentApplier].
    destruct r1 as [|x r1]; destruct r2 as [|y r2]; try reflexivity.
    unfold content_delete. cbn [kept moreTypes moreFuncs moreGlobals moreExports
      moreCode moreOther]. f_equal.
    apply list_eq. intros i. rewrite !list_lookup_imap.
    destruct (kept b !! i) as [o|]; [|reflexivity]. cbn [fmap option_fmap option_map].
    destruct (existsb (Nat.eqb i) (y :: r2)); destruct (existsb (Nat.eqb i) (x :: r1));
      reflexivity.
  - intros t1 t2 t3 t4 b r nodes. apply content_add_delete.
  - intros t1 t2 t3 t4 b nodes globals Hnodes Hglobals.
    cbn [addWithAST ContentApplier].
    rewrite (content_add_globals t1 globals _ Hglobals).
    rewrite (content_add_globals t4 globals b Hglobals).
    rewrite (content_add_others t3 nodes globals b Hnodes).
    reflexivity.
Qed.

Lemma transform_specified_commute {Bin : Type} `{PatchApplier Bin} (bin : Bin) :
  EditsCommute Bin ->
  (transform (analyse (fresh (decode bin))).1 bin (fresh (decode bin))).1
  = (specifiedOrder (analyse (fresh (decode bin))).1 bin (fresh (decode bin))).1
  /\ generate bin
     = (specifiedOrder (analyse (fresh (decode bin))).1 bin (fresh (decode bin))).1.
Proof.
  intros Hcommute.
  pose proof (generate_specified_commute bin (decode bin) Hcommute) as Hsame.
  unfold generate. unfold generateM, bind in Hsame |- *.
  rewrite analyse_fresh in Hsame |- *. cbn [fst]. now split.
Qed.


(** X16: for every patch applier whose edits commute and every input
    buffer, the composed transform of [generate] returns the buffer the
    three stages return when run in the specified order. *)
Theorem generate_equals_the_specified_order {Bin : Type} `{PatchApplier Bin} (bin : Bin) :
  EditsCommute Bin ->
  (transform (analyse (fresh (decode bin))).1 bin (fresh (decode bin))).1
  = (specifiedOrder (analyse (fresh (decode bin))).1 bin (fresh (decode bin))).1
  /\ generate bin
     = (specifiedOrder (analyse (fresh (decode bin))).1 bin (fresh (decode bin))).1.
Proof. apply transform_specified_commute. Qed.

Lemma generate_equals_the_specified_order_witness :
  generate (holding startedModule)
  = (specifiedOrder (analyse (fresh startedModule)).1 (holding startedModule)
       (fresh startedModule)).1.
Proof.
  exact (proj2 (generate_equals_the_specified_order (holding startedModule)
                  content_edits_commute)).
Defined.
